(** * Online coding interview platform: session registry, gateway,
      HTTP rate limiter and client connection hook

    A shallow embedding of the TypeScript sources

    - [backend/src/sessions/sessions.service.ts]  (class [SessionsService]),
    - [backend/src/websocket/websocket.gateway.ts] (class
      [InterviewWebSocketGateway]),
    - [backend/src/rate-limit/rate-limit.guard.ts] (class [RateLimitGuard]),
    - [src/hooks/useWebSocket.ts] and [src/utils/constants.ts],

    followed by the properties of the specification stated over it.

    Conventions.  Mutable members become explicit state that every
    operation takes and returns.  [Date.now()] and [new Date()] become an
    explicit clock reading [now : Z] (milliseconds since the epoch), one
    reading per handler invocation.  [uuidv4()] becomes an explicit
    argument.  A JavaScript [number] that only ever holds a counter or a
    time is a [Z]; counters stay far below 2^53, where a double is exact. *)

From Stdlib Require Import ZArith Lia.
From stdpp Require Import gmap strings list fin_maps.

Local Open Scope string_scope.

(* ===================================================================== *)
(** * Part I: the embedding                                               *)
(* ===================================================================== *)

(** ** JavaScript values that cross the wire

    The gateway receives [payload: any]; the handlers read properties of
    it and compare it with strings, so the model keeps the distinction
    between [undefined]/[null] (property access throws a [TypeError]),
    strings, numbers and objects. *)
Module Js.

#[warnings="-register-all"]
Inductive JsValue : Type :=
| JsUndefined
| JsNull
| JsStr (s : string)
| JsNum (n : Z)
| JsObj (fields : list (string * JsValue)).

(** [!!v]: the strings, numbers and objects that are truthy. *)
Definition truthy (v : JsValue) : bool :=
  match v with
  | JsUndefined | JsNull => false
  | JsStr s => negb (String.eqb s "")
  | JsNum n => negb (Z.eqb n 0)
  | JsObj _ => true
  end.

(** [v || d] *)
Definition or_else (v d : JsValue) : JsValue :=
  if truthy v then v else d.

Fixpoint assoc (k : string) (fs : list (string * JsValue)) : JsValue :=
  match fs with
  | [] => JsUndefined
  | (k', v) :: fs' => if String.eqb k k' then v else assoc k fs'
  end.

(** [v.k]: [None] stands for the [TypeError] raised when [v] is
    [undefined] or [null]; a primitive has no own property of such a name
    and yields [undefined]. *)
Definition prop (v : JsValue) (k : string) : option JsValue :=
  match v with
  | JsUndefined | JsNull => None
  | JsStr _ | JsNum _ => Some JsUndefined
  | JsObj fs => Some (assoc k fs)
  end.

(** [a !== s] for a string [s]: strict inequality. *)
Definition strict_neq_str (s : string) (v : JsValue) : bool :=
  match v with
  | JsStr s' => negb (String.eqb s s')
  | _ => true
  end.

(** [!s] for an optional string ([undefined] and [''] are falsy). *)
Definition falsy_str (o : option string) : bool :=
  match o with
  | None => true
  | Some s => String.eqb s ""
  end.

Definition of_opt_str (o : option string) : JsValue :=
  match o with
  | None => JsUndefined
  | Some s => JsStr s
  end.

End Js.

(** ** The ECMAScript [Map]: a finite map that remembers insertion order

    [Map.prototype.set] on a present key replaces the value in place, on an
    absent key appends; iteration ([values()], [entries()]) follows the
    insertion order, which [listSessions] and [getSessionUsers] expose. *)
Module JsMap.
Section Defs.
Context {V : Type}.

Fixpoint Map_get (k : string) (m : list (string * V)) : option V :=
  match m with
  | [] => None
  | (k', v) :: m' => if decide (k = k') then Some v else Map_get k m'
  end.

Definition Map_has (k : string) (m : list (string * V)) : bool :=
  match Map_get k m with Some _ => true | None => false end.

Fixpoint Map_set (k : string) (v : V) (m : list (string * V))
  : list (string * V) :=
  match m with
  | [] => [(k, v)]
  | (k', v') :: m' =>
      if decide (k = k') then (k, v) :: m' else (k', v') :: Map_set k v m'
  end.

Fixpoint Map_delete (k : string) (m : list (string * V))
  : list (string * V) :=
  match m with
  | [] => []
  | (k', v') :: m' =>
      if decide (k = k') then Map_delete k m' else (k', v') :: Map_delete k m'
  end.

Definition Map_size (m : list (string * V)) : nat := length m.
Definition Map_keys (m : list (string * V)) : list string := m.*1.
Definition Map_values (m : list (string * V)) : list V := m.*2.
Definition Map_entries (m : list (string * V)) : list (string * V) := m.

(** The representation invariant of a [Map]: keys are pairwise distinct. *)
Definition Map_wf (m : list (string * V)) : Prop := NoDup (Map_keys m).
End Defs.
End JsMap.
Import JsMap.

(** ** [common/enums/language.enum.ts] *)

(** Modelled from the spec: the [Language] enum file is not among the
    sources.  The specification speaks of "a fixed enumerated language
    set"; the API documents and the front-end type give its string values
    ['javascript' | 'typescript' | 'python'], and the tests name the members
    [Language.JAVASCRIPT] and [Language.TYPESCRIPT]. *)
Inductive Language : Type := JAVASCRIPT | TYPESCRIPT | PYTHON.

Definition Language_value (l : Language) : string :=
  match l with
  | JAVASCRIPT => "javascript"
  | TYPESCRIPT => "typescript"
  | PYTHON => "python"
  end.

(** [Object.values(Language)] *)
Definition Language_values : list Language := [JAVASCRIPT; TYPESCRIPT; PYTHON].

(** [Object.values(Language).includes(v)]: the member whose value is the
    string [v], if any ([includes] compares with SameValueZero, so nothing
    but a string can be found). *)
Definition Language_includes (v : Js.JsValue) : option Language :=
  match v with
  | Js.JsStr s =>
      List.find (fun l => String.eqb (Language_value l) s) Language_values
  | _ => None
  end.

(** ** [sessions.service.ts]: the session registry *)
Module SessionsService.

(** [SessionUser].  The display colour is kept as the hue that
    [generateUserColor] derives from the user id; its rendering as a hex
    string goes through floating-point HSL arithmetic that no property
    below depends on. *)
Record SessionUser : Type := mkUser {
  u_id : string;
  u_name : string;
  u_color : Z;
  u_lastSeen : Z;
  u_socketId : string
}.

(** [SessionData extends Session] *)
Record SessionData : Type := mkData {
  sd_id : string;
  sd_createdAt : Z;
  sd_language : Language;
  sd_participantCount : nat;
  sd_users : list (string * SessionUser);
  sd_codeVersion : Z
}.

(** [Session]: what [toSessionResponse] hands out. *)
Record Session : Type := mkSession {
  s_id : string;
  s_createdAt : Z;
  s_language : Language;
  s_participantCount : nat
}.

(** The private member [sessions = new Map<string, SessionData>()]. *)
Abbreviation Registry := (list (string * SessionData)).

Definition SESSION_TIMEOUT : Z := 30 * 60 * 1000.

Definition toSessionResponse (sessionData : SessionData) : Session :=
  {| s_id := sd_id sessionData;
     s_createdAt := sd_createdAt sessionData;
     s_language := sd_language sessionData;
     s_participantCount := sd_participantCount sessionData |}.

(** [createSession(language)]; [sessionId] is the value of [uuidv4()]. *)
Definition createSession (sessionId : string) (now : Z) (language : Language)
    (sessions : Registry) : Registry * Session :=
  let sessionData :=
    {| sd_id := sessionId; sd_createdAt := now; sd_language := language;
       sd_participantCount := 0; sd_users := []; sd_codeVersion := 0 |} in
  (Map_set sessionId sessionData sessions, toSessionResponse sessionData).

Definition getSession (sessionId : string) (sessions : Registry)
    : option Session :=
  match Map_get sessionId sessions with
  | None => None
  | Some sessionData => Some (toSessionResponse sessionData)
  end.

Definition getSessionData (sessionId : string) (sessions : Registry)
    : option SessionData :=
  Map_get sessionId sessions.

(** [listSessions(limit, offset)]: the page
    [values().map(toSessionResponse).slice(offset, offset + limit)] and the
    total; the controller clamps both arguments to naturals. *)
Definition listSessions (limit offset : nat) (sessions : Registry)
    : list Session * nat :=
  (take limit (drop offset (toSessionResponse <$> Map_values sessions)),
   Map_size sessions).

Definition deleteSession (sessionId : string) (sessions : Registry)
    : Registry * bool :=
  (Map_delete sessionId sessions, Map_has sessionId sessions).

(** The 32-bit [hash << 5] of [generateUserColor]. *)
Definition int32 (z : Z) : Z :=
  ((z + 2147483648) mod 4294967296 - 2147483648)%Z.

Fixpoint hash_loop (userId : string) (hash : Z) : Z :=
  match userId with
  | EmptyString => hash
  | String c rest =>
      hash_loop rest
        (Z.of_nat (Ascii.nat_of_ascii c) + (int32 (hash * 32) - hash))%Z
  end.

(** [generateUserColor(userId)] up to [const hue = Math.abs(hash % 360)]. *)
Definition generateUserColor (userId : string) : Z :=
  Z.abs (Z.rem (hash_loop userId 0) 360).

Definition addUserToSession (sessionId userId userName socketId : string)
    (now : Z) (sessions : Registry) : Registry * option SessionUser :=
  match Map_get sessionId sessions with
  | None => (sessions, None)
  | Some sessionData =>
      let color := generateUserColor userId in
      let user :=
        {| u_id := userId; u_name := userName; u_color := color;
           u_lastSeen := now; u_socketId := socketId |} in
      let users' := Map_set userId user (sd_users sessionData) in
      let sessionData' :=
        {| sd_id := sd_id sessionData;
           sd_createdAt := sd_createdAt sessionData;
           sd_language := sd_language sessionData;
           sd_participantCount := Map_size users';
           sd_users := users';
           sd_codeVersion := sd_codeVersion sessionData |} in
      (Map_set sessionId sessionData' sessions, Some user)
  end.

Definition removeUserFromSession (sessionId userId : string)
    (sessions : Registry) : Registry * bool :=
  match Map_get sessionId sessions with
  | None => (sessions, false)
  | Some sessionData =>
      let removed := Map_has userId (sd_users sessionData) in
      if removed then
        let users' := Map_delete userId (sd_users sessionData) in
        let sessionData' :=
          {| sd_id := sd_id sessionData;
             sd_createdAt := sd_createdAt sessionData;
             sd_language := sd_language sessionData;
             sd_participantCount := Map_size users';
             sd_users := users';
             sd_codeVersion := sd_codeVersion sessionData |} in
        (Map_set sessionId sessionData' sessions, true)
      else (sessions, false)
  end.

Definition updateUserLastSeen (sessionId userId : string) (now : Z)
    (sessions : Registry) : Registry :=
  match Map_get sessionId sessions with
  | None => sessions
  | Some sessionData =>
      match Map_get userId (sd_users sessionData) with
      | None => sessions
      | Some user =>
          let user' :=
            {| u_id := u_id user; u_name := u_name user;
               u_color := u_color user; u_lastSeen := now;
               u_socketId := u_socketId user |} in
          let sessionData' :=
            {| sd_id := sd_id sessionData;
               sd_createdAt := sd_createdAt sessionData;
               sd_language := sd_language sessionData;
               sd_participantCount := sd_participantCount sessionData;
               sd_users := Map_set userId user' (sd_users sessionData);
               sd_codeVersion := sd_codeVersion sessionData |} in
          Map_set sessionId sessionData' sessions
      end
  end.

Definition updateSessionLanguage (sessionId : string) (language : Language)
    (sessions : Registry) : Registry * bool :=
  match Map_get sessionId sessions with
  | None => (sessions, false)
  | Some sessionData =>
      let sessionData' :=
        {| sd_id := sd_id sessionData;
           sd_createdAt := sd_createdAt sessionData;
           sd_language := language;
           sd_participantCount := sd_participantCount sessionData;
           sd_users := sd_users sessionData;
           sd_codeVersion := sd_codeVersion sessionData |} in
      (Map_set sessionId sessionData' sessions, true)
  end.

(** [incrementCodeVersion(sessionId)]: [-1] when the session is absent. *)
Definition incrementCodeVersion (sessionId : string) (sessions : Registry)
    : Registry * Z :=
  match Map_get sessionId sessions with
  | None => (sessions, (-1)%Z)
  | Some sessionData =>
      let sessionData' :=
        {| sd_id := sd_id sessionData;
           sd_createdAt := sd_createdAt sessionData;
           sd_language := sd_language sessionData;
           sd_participantCount := sd_participantCount sessionData;
           sd_users := sd_users sessionData;
           sd_codeVersion := (sd_codeVersion sessionData + 1)%Z |} in
      (Map_set sessionId sessionData' sessions, sd_codeVersion sessionData')
  end.

Definition getSessionUsers (sessionId : string) (sessions : Registry)
    : list SessionUser :=
  match Map_get sessionId sessions with
  | None => []
  | Some sessionData => Map_values (sd_users sessionData)
  end.

(** The test of the sweep: older than the timeout and without users. *)
Definition inactive (now : Z) (sessionData : SessionData) : bool :=
  bool_decide (now - sd_createdAt sessionData > SESSION_TIMEOUT)%Z
  && bool_decide (Map_size (sd_users sessionData) = 0).

(** [cleanupInactiveSessions()]: the [for ... of this.sessions.entries()]
    loop, deleting from the map it walks. *)
Definition cleanupInactiveSessions (now : Z) (sessions : Registry)
    : Registry :=
  fold_left
    (fun acc entry =>
       if inactive now entry.2 then Map_delete entry.1 acc else acc)
    (Map_entries sessions) sessions.

End SessionsService.

(** ** [rate-limit.guard.ts]: the HTTP rate limiter *)
Module RateLimitGuard.

(** [s.includes(pat)] *)
Fixpoint includes (s pat : string) : bool :=
  if String.prefix pat s then true
  else match s with
       | EmptyString => false
       | String _ s' => includes s' pat
       end.

(** [s.replace(pat, by)] with a string pattern: the first occurrence. *)
Fixpoint replace (s pat by_ : string) : string :=
  if String.prefix pat s then
    by_ ++ String.substring (String.length pat)
             (String.length s - String.length pat) s
  else match s with
       | EmptyString => EmptyString
       | String c s' => String c (replace s' pat by_)
       end.

(** The fields of the Express request that the guard reads. *)
Record Request : Type := mkRequest {
  req_ip : option string;
  req_remoteAddress : option string;
  req_method : string;
  req_route_path : option string;
  req_path : string
}.

Record Limit : Type := mkLimit { max : Z; window : Z }.
Record Entry : Type := mkEntry { count : Z; resetTime : Z }.

(** [interface RateLimitStore], a plain object used as a dictionary. *)
Abbreviation RateLimitStore := (gmap string Entry).

(** The member [limits], in the order [Object.entries] lists it. *)
Definition limits : list (string * Limit) :=
  [ ("POST /api/sessions", {| max := 10; window := 60000 |});
    ("POST /api/sessions/:sessionId/join", {| max := 20; window := 60000 |});
    ("default", {| max := 100; window := 60000 |}) ].

Definition limits_default : Limit := {| max := 100; window := 60000 |}.

Definition opt_or (o : option string) (d : string) : string :=
  match o with
  | Some s => if String.eqb s "" then d else s
  | None => d
  end.

(** [request.route?.path || request.path] *)
Definition request_path (request : Request) : string :=
  opt_or (req_route_path request) (req_path request).

Definition getKey (request : Request) : string :=
  let ip := opt_or (req_ip request)
              (opt_or (req_remoteAddress request) "unknown") in
  ip ++ ":" ++ req_method request ++ " " ++ request_path request.

Fixpoint getLimit_loop (key : string) (entries : list (string * Limit))
    : Limit :=
  match entries with
  | [] => limits_default
  | (pattern, limit) :: rest =>
      if String.eqb pattern "default" then getLimit_loop key rest
      else if includes key (replace pattern "/api" "") then limit
      else getLimit_loop key rest
  end.

Definition getLimit (request : Request) : Limit :=
  let key := req_method request ++ " " ++ request_path request in
  getLimit_loop key limits.

(** What [canActivate] does: return [true], or throw the [HttpException]
    with body [{error: 'RATE_LIMIT_EXCEEDED', ...}] and status 429. *)
Inductive Verdict : Type :=
| Allowed
| Rejected (error : string) (statusCode : Z).

Definition canActivate (request : Request) (now : Z)
    (store : RateLimitStore) : RateLimitStore * Verdict :=
  let key := getKey request in
  let limit := getLimit request in
  match store !! key with
  | None =>
      (<[key := {| count := 1; resetTime := now + window limit |}]> store,
       Allowed)
  | Some record =>
      if bool_decide (now > resetTime record)%Z then
        (<[key := {| count := 1; resetTime := now + window limit |}]> store,
         Allowed)
      else if bool_decide (count record >= max limit)%Z then
        (store, Rejected "RATE_LIMIT_EXCEEDED" 429)
      else
        (<[key := {| count := count record + 1;
                     resetTime := resetTime record |}]> store,
         Allowed)
  end%Z.

End RateLimitGuard.

(** ** [websocket.gateway.ts]: admission and event handling *)
Module Gateway.
Import Js SessionsService.

(** [interface WebSocketMessage]: an inbound frame.  The handlers read
    [sessionId] and [payload] and trust neither. *)
Record WebSocketMessage : Type := mkMessage {
  m_type : string;
  m_sessionId : JsValue;
  m_userId : string;
  m_payload : JsValue;
  m_timestamp : Z
}.

(** [client.handshake.query] *)
Record Handshake : Type := mkHandshake {
  q_sessionId : option string;
  q_userId : option string;
  q_userName : option string
}.

(** The payloads of outbound frames. *)
Inductive Payload : Type :=
| PError (error message : string)
| PUserJoined (id name : string) (color : Z)
| PUserLeft (reason : string)
| PCodeUpdate (delta : JsValue) (version : Z)
| PCursor (payload : JsValue)
| PLanguage (language : Language)
| PPresence (users : list (string * string * Z * Z)).

(** Outbound frames: the acknowledgment sent on ['connected'], and the
    envelope [{type, sessionId, userId, payload, timestamp}]. *)
Inductive Frame : Type :=
| Connected (sessionId userId : string) (connectedAt : Z)
| Envelope (type : string) (sessionId : JsValue) (userId : string)
    (payload : Payload) (timestamp : Z).

(** What a handler does to the outside world, in program order. *)
Inductive Effect : Type :=
| ClientEmit (client event : string) (frame : Frame)
    (** [client.emit(event, frame)]: to this connection only *)
| ClientToEmit (client room event : string) (frame : Frame)
    (** [client.to(room).emit(event, frame)]: the room without [client] *)
| ServerToEmit (room event : string) (frame : Frame)
    (** [this.server.to(room).emit(event, frame)]: the whole room *)
| ClientDisconnect (client : string)
    (** [client.disconnect()] *)
| Uncaught (error : string)
    (** the handler was left by an exception that it does not catch *).

(** The members of the gateway, the registry it is injected with, and the
    rooms of the Socket.IO adapter ([server.sockets.adapter.rooms]). *)
Record State : Type := mkState {
  sessions : Registry;
  userSessions : gmap string string;
  socketUsers : gmap string string;
  cursorUpdateThrottle : gmap string Z;
  codeUpdateThrottle : gmap string Z;
  languageChangeThrottle : gmap string Z;
  rooms : gmap string (gset string)
}.

Definition init : State :=
  {| sessions := []; userSessions := ∅; socketUsers := ∅;
     cursorUpdateThrottle := ∅; codeUpdateThrottle := ∅;
     languageChangeThrottle := ∅; rooms := ∅ |}.

Definition set_sessions (st : State) (r : Registry) : State :=
  {| sessions := r; userSessions := userSessions st;
     socketUsers := socketUsers st;
     cursorUpdateThrottle := cursorUpdateThrottle st;
     codeUpdateThrottle := codeUpdateThrottle st;
     languageChangeThrottle := languageChangeThrottle st;
     rooms := rooms st |}.

Definition set_rooms (st : State) (r : gmap string (gset string)) : State :=
  {| sessions := sessions st; userSessions := userSessions st;
     socketUsers := socketUsers st;
     cursorUpdateThrottle := cursorUpdateThrottle st;
     codeUpdateThrottle := codeUpdateThrottle st;
     languageChangeThrottle := languageChangeThrottle st;
     rooms := r |}.

Definition set_cursorUpdateThrottle (st : State) (t : gmap string Z) : State :=
  {| sessions := sessions st; userSessions := userSessions st;
     socketUsers := socketUsers st;
     cursorUpdateThrottle := t;
     codeUpdateThrottle := codeUpdateThrottle st;
     languageChangeThrottle := languageChangeThrottle st;
     rooms := rooms st |}.

Definition set_codeUpdateThrottle (st : State) (t : gmap string Z) : State :=
  {| sessions := sessions st; userSessions := userSessions st;
     socketUsers := socketUsers st;
     cursorUpdateThrottle := cursorUpdateThrottle st;
     codeUpdateThrottle := t;
     languageChangeThrottle := languageChangeThrottle st;
     rooms := rooms st |}.

Definition set_languageChangeThrottle (st : State) (t : gmap string Z)
    : State :=
  {| sessions := sessions st; userSessions := userSessions st;
     socketUsers := socketUsers st;
     cursorUpdateThrottle := cursorUpdateThrottle st;
     codeUpdateThrottle := codeUpdateThrottle st;
     languageChangeThrottle := t;
     rooms := rooms st |}.

(** The sockets currently in a room. *)
Definition room_members (rs : gmap string (gset string)) (room : string)
    : gset string :=
  default ∅ (rs !! room).

(** [client.join(room)] *)
Definition join (client room : string) (rs : gmap string (gset string))
    : gmap string (gset string) :=
  <[room := {[client]} ∪ room_members rs room]> rs.

(** Socket.IO takes a closing socket out of every room before the
    gateway's [handleDisconnect] runs. *)
Definition leave_all (client : string) (rs : gmap string (gset string))
    : gmap string (gset string) :=
  (fun members => members ∖ {[client]}) <$> rs.

(** A value read from one of the [Map<string, string>] members, as the
    conditions [!sessionId], [sessionId && userId] see it. *)
Definition truthy_str (o : option string) : option string :=
  match o with
  | Some s => if String.eqb s "" then None else Some s
  | None => None
  end.

Definition error_frame (sessionId : JsValue) (userId error message : string)
    (now : Z) : Frame :=
  Envelope "error" sessionId userId (PError error message) now.

Definition broadcastPresenceUpdate (sessionId : string) (now : Z)
    (st : State) : list Effect :=
  let users := getSessionUsers sessionId (sessions st) in
  [ ServerToEmit sessionId "presence-update"
      (Envelope "presence-update" (JsStr sessionId) "system"
         (PPresence
            ((fun user =>
                (u_id user, u_name user, u_color user, u_lastSeen user))
               <$> users))
         now) ].

Definition handleConnection (client : string) (query : Handshake) (now : Z)
    (st : State) : State * list Effect :=
  match truthy_str (q_sessionId query), truthy_str (q_userId query),
        truthy_str (q_userName query) with
  | Some sessionId, Some userId, Some userName =>
      match getSession sessionId (sessions st) with
      | None => (st, [ClientDisconnect client])
      | Some _ =>
          match addUserToSession sessionId userId userName client now
                  (sessions st) with
          | (sessions', None) =>
              (set_sessions st sessions', [ClientDisconnect client])
          | (sessions', Some user) =>
              let st' :=
                {| sessions := sessions';
                   userSessions := <[client := sessionId]> (userSessions st);
                   socketUsers := <[client := userId]> (socketUsers st);
                   cursorUpdateThrottle := cursorUpdateThrottle st;
                   codeUpdateThrottle := codeUpdateThrottle st;
                   languageChangeThrottle := languageChangeThrottle st;
                   rooms := join client sessionId (rooms st) |} in
              (st',
               [ ClientEmit client "connected"
                   (Connected sessionId userId now);
                 ClientToEmit client sessionId "user-joined"
                   (Envelope "user-joined" (JsStr sessionId) userId
                      (PUserJoined (u_id user) (u_name user) (u_color user))
                      now) ]
               ++ broadcastPresenceUpdate sessionId now st')%list
          end
      end
  | _, _, _ => (st, [ClientDisconnect client])
  end.

Definition handleDisconnect (client : string) (now : Z) (st : State)
    : State * list Effect :=
  match truthy_str (userSessions st !! client),
        truthy_str (socketUsers st !! client) with
  | Some sessionId, Some userId =>
      let st1 :=
        set_sessions st
          (removeUserFromSession sessionId userId (sessions st)).1 in
      let out :=
        ([ ClientToEmit client sessionId "user-left"
            (Envelope "user-left" (JsStr sessionId) userId
               (PUserLeft "disconnect") now) ]
         ++ broadcastPresenceUpdate sessionId now st1)%list in
      ({| sessions := sessions st1;
          userSessions := delete client (userSessions st1);
          socketUsers := delete client (socketUsers st1);
          cursorUpdateThrottle := delete userId (cursorUpdateThrottle st1);
          codeUpdateThrottle := delete userId (codeUpdateThrottle st1);
          languageChangeThrottle :=
            delete userId (languageChangeThrottle st1);
          rooms := rooms st1 |},
       out)
  | _, _ => (st, [])
  end.

(** The readings of the clock that one call of a message handler takes,
    named by what they are used for: [c_now] is the first, [Date.now()] at
    the throttle (on the paths that end before it, the time stamp of the
    error frame); [c_seen] is the [new Date()] of [updateUserLastSeen];
    [c_stamp] is the [Date.now()] that stamps a frame built after the
    throttle.  Nothing is assumed about how they compare. *)
Record Clock : Type := mkClock { c_now : Z; c_seen : Z; c_stamp : Z }.

(** [@WebSocketGateway({ cors: ..., namespace: '/' })] *)
Definition gateway_namespace : option string := Some "/".

(** [this.server.sockets.adapter.rooms].  For a gateway whose decorator
    names a namespace the [server] that Nest injects is that [Namespace]
    ([IoAdapter.create] answers [server.of(namespace)]); its [sockets] is the
    [Map] of the connected sockets, which has no [adapter], so the
    expression reads [rooms] of [undefined] and throws.  Without a namespace
    [server] is the [Server], [server.sockets] its main namespace and the
    expression the rooms of the adapter.  [None] stands for the
    [TypeError]. *)
Definition server_sockets_adapter_rooms (st : State)
    : option (gmap string (gset string)) :=
  match truthy_str gateway_namespace with
  | Some _ => None
  | None => Some (rooms st)
  end.

(** [handleCodeUpdate]: the ['code-update'] subscription. *)
Definition handleCodeUpdate (client : string) (message : WebSocketMessage)
    (clock : Clock) (st : State) : State * list Effect :=
  match truthy_str (userSessions st !! client),
        truthy_str (socketUsers st !! client) with
  | Some sessionId, Some userId =>
      if strict_neq_str sessionId (m_sessionId message) then
        (st, [ ClientEmit client "error"
                 (error_frame (JsStr sessionId) userId
                    "INVALID_SESSION" "Session ID mismatch" (c_now clock)) ])
      else
        let now := c_now clock in
        let lastUpdate := default 0%Z (codeUpdateThrottle st !! userId) in
        if bool_decide (now - lastUpdate < 20)%Z then (st, [])
        else
          let st1 :=
            set_codeUpdateThrottle st
              (<[userId := now]> (codeUpdateThrottle st)) in
          let '(sessions1, version) :=
            incrementCodeVersion sessionId (sessions st1) in
          if Z.eqb version (-1) then
            (set_sessions st1 sessions1,
             [ ClientEmit client "error"
                 (error_frame (JsStr sessionId) userId
                    "SESSION_NOT_FOUND" "Session does not exist"
                    (c_stamp clock)) ])
          else
            let st2 :=
              set_sessions st1
                (updateUserLastSeen sessionId userId (c_seen clock)
                   sessions1) in
            match prop (m_payload message) "delta" with
            | None => (st2, [ Uncaught "TypeError" ])
            | Some delta =>
                let broadcastMessage :=
                  Envelope "code-update" (JsStr sessionId) userId
                    (PCodeUpdate delta version) (c_stamp clock) in
                match server_sockets_adapter_rooms st2 with
                | None => (st2, [ Uncaught "TypeError" ])
                | Some _ =>
                    (st2, [ ClientToEmit client sessionId "code-update"
                              broadcastMessage ])
                end
            end
  | _, _ =>
      (st, [ ClientEmit client "error"
               (error_frame (or_else (m_sessionId message) (JsStr ""))
                  (default "" (truthy_str (socketUsers st !! client)))
                  "USER_NOT_IN_SESSION" "User not connected to session"
                  (c_now clock)) ])
  end.

(** [handleCursorUpdate]: the ['cursor-update'] subscription. *)
Definition handleCursorUpdate (client : string) (message : WebSocketMessage)
    (clock : Clock) (st : State) : State * list Effect :=
  match truthy_str (userSessions st !! client),
        truthy_str (socketUsers st !! client) with
  | Some sessionId, Some userId =>
      if strict_neq_str sessionId (m_sessionId message) then (st, [])
      else
        let now := c_now clock in
        let lastUpdate := default 0%Z (cursorUpdateThrottle st !! userId) in
        if bool_decide (now - lastUpdate < 100)%Z then (st, [])
        else
          let st1 :=
            set_cursorUpdateThrottle st
              (<[userId := now]> (cursorUpdateThrottle st)) in
          let st2 :=
            set_sessions st1
              (updateUserLastSeen sessionId userId (c_seen clock)
                 (sessions st1)) in
          (st2, [ ClientToEmit client sessionId "cursor-update"
                    (Envelope "cursor-update" (JsStr sessionId) userId
                       (PCursor (m_payload message)) (c_stamp clock)) ])
  | _, _ => (st, [])
  end.

(** [handleLanguageChange]: the ['language-changed'] subscription. *)
Definition handleLanguageChange (client : string)
    (message : WebSocketMessage) (clock : Clock) (st : State)
    : State * list Effect :=
  match truthy_str (userSessions st !! client),
        truthy_str (socketUsers st !! client) with
  | Some sessionId, Some userId =>
      if strict_neq_str sessionId (m_sessionId message) then
        (st, [ ClientEmit client "error"
                 (error_frame (JsStr sessionId) userId
                    "INVALID_SESSION" "Session ID mismatch" (c_now clock)) ])
      else
        match Language_includes (m_payload message) with
        | None =>
            (st, [ ClientEmit client "error"
                     (error_frame (JsStr sessionId) userId
                        "INVALID_LANGUAGE" "Unsupported language"
                        (c_now clock)) ])
        | Some language =>
            let now := c_now clock in
            let lastChange :=
              default 0%Z (languageChangeThrottle st !! userId) in
            if bool_decide (now - lastChange < 5000)%Z then
              (st, [ ClientEmit client "error"
                       (error_frame (JsStr sessionId) userId
                          "RATE_LIMIT_EXCEEDED"
                          "Language changes are limited to 1 per 5 seconds"
                          (c_stamp clock)) ])
            else
              let st1 :=
                set_languageChangeThrottle st
                  (<[userId := now]> (languageChangeThrottle st)) in
              let '(sessions1, updated) :=
                updateSessionLanguage sessionId language (sessions st1) in
              if negb updated then
                (st1, [ ClientEmit client "error"
                          (error_frame (JsStr sessionId) userId
                             "SESSION_NOT_FOUND" "Session does not exist"
                             (c_stamp clock)) ])
              else
                let st2 :=
                  set_sessions st1
                    (updateUserLastSeen sessionId userId (c_seen clock)
                       sessions1) in
                (st2, [ ServerToEmit sessionId "language-changed"
                          (Envelope "language-changed" (JsStr sessionId)
                             userId (PLanguage language) (c_stamp clock)) ])
        end
  | _, _ =>
      (st, [ ClientEmit client "error"
               (error_frame (or_else (m_sessionId message) (JsStr ""))
                  (default "" (truthy_str (socketUsers st !! client)))
                  "USER_NOT_IN_SESSION" "User not connected to session"
                  (c_now clock)) ])
  end.

(** *** The gateway as a transition system

    Everything that reaches the server: the two HTTP routes that change
    the registry, the sweep timer, and the Socket.IO callbacks. *)
Inductive Action : Type :=
| HttpCreateSession (sessionId : string) (language : Language) (now : Z)
| HttpDeleteSession (sessionId : string)
| CleanupTick (now : Z)
| Connect (client : string) (query : Handshake) (now : Z)
| Disconnect (client : string) (now : Z)
| CodeUpdate (client : string) (message : WebSocketMessage) (clock : Clock)
| CursorUpdate (client : string) (message : WebSocketMessage) (clock : Clock)
| LanguageChange (client : string) (message : WebSocketMessage)
    (clock : Clock).

Definition step (st : State) (a : Action) : State * list Effect :=
  match a with
  | HttpCreateSession sessionId language now =>
      (set_sessions st (createSession sessionId now language (sessions st)).1,
       [])
  | HttpDeleteSession sessionId =>
      (set_sessions st (deleteSession sessionId (sessions st)).1, [])
  | CleanupTick now =>
      (set_sessions st (cleanupInactiveSessions now (sessions st)), [])
  | Connect client query now => handleConnection client query now st
  | Disconnect client now =>
      handleDisconnect client now
        (set_rooms st (leave_all client (rooms st)))
  | CodeUpdate client message clock =>
      handleCodeUpdate client message clock st
  | CursorUpdate client message clock =>
      handleCursorUpdate client message clock st
  | LanguageChange client message clock =>
      handleLanguageChange client message clock st
  end.

(** Who receives what the gateway emits, given the rooms at the time.  An
    exception that leaves a handler is no emission of the gateway; what the
    framework does with it is outside this model. *)
Definition recipients (rs : gmap string (gset string)) (e : Effect)
    : gset string :=
  match e with
  | ClientEmit client _ _ => {[client]}
  | ClientToEmit client room _ _ => room_members rs room ∖ {[client]}
  | ServerToEmit room _ _ => room_members rs room
  | ClientDisconnect _ | Uncaught _ => ∅
  end.

(** An effect together with the connections it reaches. *)
Definition Delivery : Type := Effect * gset string.

Definition deliver (st : State) (out : list Effect) : list Delivery :=
  (fun e => (e, recipients (rooms st) e)) <$> out.

(** Running a trace: the final state and everything delivered on the
    way.  Every handler emits after its last change to the rooms, so the
    rooms of the state it returns are the rooms at emission. *)
Fixpoint run (st : State) (tr : list Action) : State * list Delivery :=
  match tr with
  | [] => (st, [])
  | a :: tr' =>
      let '(st1, out1) := step st a in
      let '(st2, out2) := run st1 tr' in
      (st2, (deliver st1 out1 ++ out2)%list)
  end.

(** *** Observations on what was emitted *)

Definition effect_event (e : Effect) : option string :=
  match e with
  | ClientEmit _ event _ | ClientToEmit _ _ event _
  | ServerToEmit _ event _ => Some event
  | ClientDisconnect _ | Uncaught _ => None
  end.

Definition effect_frame (e : Effect) : option Frame :=
  match e with
  | ClientEmit _ _ f | ClientToEmit _ _ _ f | ServerToEmit _ _ f => Some f
  | ClientDisconnect _ | Uncaught _ => None
  end.

(** Does [out] hold an ['error'] frame with code [code], sent to
    [client] alone? *)
Definition is_error_to (client code : string) (e : Effect) : bool :=
  match e with
  | ClientEmit c "error" (Envelope "error" _ _ (PError error _) _) =>
      String.eqb c client && String.eqb error code
  | _ => false
  end.

Definition sends_error (out : list Effect) (client code : string) : bool :=
  existsb (is_error_to client code) out.

(** An effect that reaches a connection other than the emitting one. *)
Definition is_broadcast (e : Effect) : bool :=
  match e with
  | ClientToEmit _ _ _ _ | ServerToEmit _ _ _ => true
  | _ => false
  end.

(** The version carried by a ['code-update'] broadcast to room
    [sessionId]. *)
Definition broadcast_version (sessionId : string) (e : Effect) : option Z :=
  match e with
  | ClientToEmit _ room "code-update"
      (Envelope _ _ _ (PCodeUpdate _ version) _) =>
      if String.eqb room sessionId then Some version else None
  | _ => None
  end.

Definition broadcast_versions (sessionId : string) (out : list Delivery)
    : list Z :=
  omap (fun d => broadcast_version sessionId d.1) out.

End Gateway.

(** ** [hooks/useWebSocket.ts]: the client's connection hook *)
Module UseWebSocket.

(** [utils/constants.ts] *)
Definition RECONNECTION_ATTEMPTS : nat := 5.
Definition RECONNECTION_DELAY : Z := 1000.

(** The refs and states of the hook.  Of the socket only its [connected]
    flag is read. *)
Record Hook : Type := mkHook {
  isConnected : bool;
  connectionError : option string;
  socketRef : option bool;
  reconnectAttemptsRef : nat;
  reconnectTimeoutRef : option Z;
  connectedToRef : option (string * string)
}.

Record Options : Type := mkOptions {
  o_sessionId : string;
  o_userId : string;
  o_userName : string
}.

(** The calls the hook can make on the Socket.IO client and on the
    browser's timers. *)
Inductive Call : Type :=
| Io (sessionId userId userName : string)   (** [io(WS_URL, {query})] *)
| SocketDisconnect                          (** [socket.disconnect()] *)
| RemoveAllListeners                        (** [socket.removeAllListeners()] *)
| ClearTimeout (timer : Z)                  (** [clearTimeout(t)] *)
| SetTimeout (delay : Z)                    (** [setTimeout(f, delay)] *).

Definition initial : Hook :=
  {| isConnected := false; connectionError := None; socketRef := None;
     reconnectAttemptsRef := 0; reconnectTimeoutRef := None;
     connectedToRef := None |}.

(** [connect()] *)
Definition connect (opts : Options) (h : Hook) : Hook * list Call :=
  match socketRef h with
  | Some true => (h, [])
  | _ =>
      ({| isConnected := isConnected h;
          connectionError := connectionError h;
          socketRef := Some false;
          reconnectAttemptsRef := reconnectAttemptsRef h;
          reconnectTimeoutRef := reconnectTimeoutRef h;
          connectedToRef := connectedToRef h |},
       [Io (o_sessionId opts) (o_userId opts) (o_userName opts)])
  end.

(** [socket.on('connect', ...)] *)
Definition on_connect (h : Hook) : Hook * list Call :=
  ({| isConnected := true;
      connectionError := None;
      socketRef := (fun _ => true) <$> socketRef h;
      reconnectAttemptsRef := 0;
      reconnectTimeoutRef := reconnectTimeoutRef h;
      connectedToRef := connectedToRef h |}, []).

(** [socket.on('disconnect', (reason) => ...)] *)
Definition on_disconnect (reason : string) (h : Hook) : Hook * list Call :=
  ({| isConnected := false;
      connectionError := connectionError h;
      socketRef := (fun _ => false) <$> socketRef h;
      reconnectAttemptsRef := reconnectAttemptsRef h;
      reconnectTimeoutRef := reconnectTimeoutRef h;
      connectedToRef := connectedToRef h |}, []).

(** [socket.on('connect_error', (error) => ...)] *)
Definition on_connect_error (error : string) (h : Hook)
    : Hook * list Call :=
  ({| isConnected := isConnected h;
      connectionError := Some error;
      socketRef := socketRef h;
      reconnectAttemptsRef := reconnectAttemptsRef h;
      reconnectTimeoutRef := reconnectTimeoutRef h;
      connectedToRef := connectedToRef h |}, []).

(** [disconnect()] *)
Definition disconnect (h : Hook) : Hook * list Call :=
  let clear :=
    match reconnectTimeoutRef h with
    | Some t => [ClearTimeout t]
    | None => []
    end in
  let close :=
    match socketRef h with
    | Some _ => [SocketDisconnect]
    | None => []
    end in
  ({| isConnected := false;
      connectionError := connectionError h;
      socketRef := None;
      reconnectAttemptsRef := reconnectAttemptsRef h;
      reconnectTimeoutRef := None;
      connectedToRef := connectedToRef h |}, (clear ++ close)%list).

(** What the browser and the socket report to the hook. *)
Inductive Event : Type :=
| SocketConnect
| SocketClosed (reason : string)
| SocketConnectError (error : string).

Definition handle (h : Hook) (e : Event) : Hook * list Call :=
  match e with
  | SocketConnect => on_connect h
  | SocketClosed reason => on_disconnect reason h
  | SocketConnectError error => on_connect_error error h
  end.

Fixpoint handle_all (h : Hook) (es : list Event) : Hook * list Call :=
  match es with
  | [] => (h, [])
  | e :: es' =>
      let '(h1, c1) := handle h e in
      let '(h2, c2) := handle_all h1 es' in
      (h2, (c1 ++ c2)%list)
  end.

(** The delay that the documented back-off prescribes for the attempt
    numbered [attempt] (from 0): 1000, 2000, 4000, 8000, 16000. *)
Definition backoff_delay (attempt : nat) : Z :=
  (RECONNECTION_DELAY * 2 ^ Z.of_nat attempt)%Z.

Definition is_reconnect_call (c : Call) : bool :=
  match c with
  | Io _ _ _ | SetTimeout _ => true
  | _ => false
  end.

End UseWebSocket.

(** ** Auxiliary notions used to state the properties *)

(** The registry driven by an arbitrary sequence of service calls. *)
Module RegistryOps.
Import SessionsService.

Inductive Op : Type :=
| OpCreateSession (sessionId : string) (now : Z) (language : Language)
| OpDeleteSession (sessionId : string)
| OpAddUserToSession (sessionId userId userName socketId : string) (now : Z)
| OpRemoveUserFromSession (sessionId userId : string)
| OpUpdateUserLastSeen (sessionId userId : string) (now : Z)
| OpUpdateSessionLanguage (sessionId : string) (language : Language)
| OpIncrementCodeVersion (sessionId : string)
| OpCleanupInactiveSessions (now : Z).

Definition apply (r : Registry) (op : Op) : Registry :=
  match op with
  | OpCreateSession sessionId now language =>
      (createSession sessionId now language r).1
  | OpDeleteSession sessionId => (deleteSession sessionId r).1
  | OpAddUserToSession sessionId userId userName socketId now =>
      (addUserToSession sessionId userId userName socketId now r).1
  | OpRemoveUserFromSession sessionId userId =>
      (removeUserFromSession sessionId userId r).1
  | OpUpdateUserLastSeen sessionId userId now =>
      updateUserLastSeen sessionId userId now r
  | OpUpdateSessionLanguage sessionId language =>
      (updateSessionLanguage sessionId language r).1
  | OpIncrementCodeVersion sessionId => (incrementCodeVersion sessionId r).1
  | OpCleanupInactiveSessions now => cleanupInactiveSessions now r
  end.

Definition apply_all (ops : list Op) : Registry := foldl apply [] ops.

(** The stored participant count agrees with the users map, which is a
    well-formed [Map]. *)
Definition counted (sessionData : SessionData) : Prop :=
  sd_participantCount sessionData = Map_size (sd_users sessionData)
  ∧ Map_wf (sd_users sessionData).

Definition consistent (r : Registry) : Prop :=
  Map_wf r ∧ Forall (fun entry => counted entry.2) r.
End RegistryOps.

(** ** Sample inputs *)
Module Samples.
Import Js SessionsService Gateway RateLimitGuard.

(** The two shapes the join route's pattern can take in
    [request.route.path]: with the global prefix that [main.ts] sets
    ([app.setGlobalPrefix('api')]), and without it. *)
Definition join_request_prefixed : Request :=
  {| req_ip := Some "10.0.0.1"; req_remoteAddress := None;
     req_method := "POST";
     req_route_path := Some "/api/sessions/:sessionId/join";
     req_path := "/api/sessions/550e8400-e29b-41d4-a716-446655440000/join" |}.

Definition join_request_bare : Request :=
  {| req_ip := Some "10.0.0.1"; req_remoteAddress := None;
     req_method := "POST";
     req_route_path := Some "/sessions/:sessionId/join";
     req_path := "/sessions/550e8400-e29b-41d4-a716-446655440000/join" |}.

Definition create_request_prefixed : Request :=
  {| req_ip := Some "10.0.0.1"; req_remoteAddress := None;
     req_method := "POST";
     req_route_path := Some "/api/sessions";
     req_path := "/api/sessions" |}.

Definition create_request_bare : Request :=
  {| req_ip := Some "10.0.0.1"; req_remoteAddress := None;
     req_method := "POST";
     req_route_path := Some "/sessions";
     req_path := "/sessions" |}.

(** One session, and two connections admitted to it. *)
Definition sid1 : string := "550e8400-e29b-41d4-a716-446655440000".
Definition sid2 : string := "6ba7b810-9dad-41d1-80b4-00c04fd430c8".

Definition handshake (userId userName : string) : Handshake :=
  {| q_sessionId := Some sid1; q_userId := Some userId;
     q_userName := Some userName |}.

Definition two_users : State :=
  (run init
     [ HttpCreateSession sid1 JAVASCRIPT 1000;
       Connect "sockA" (handshake "alice" "Alice") 2000;
       Connect "sockB" (handshake "bob" "Bob") 3000 ]).1.

(** The readings of a call that takes less than a millisecond. *)
Definition tick (t : Z) : Clock :=
  {| c_now := t; c_seen := t; c_stamp := t |}.

(** A well-formed edit, and one without a payload. *)
Definition edit (sessionId text : string) : WebSocketMessage :=
  {| m_type := "code-update"; m_sessionId := JsStr sessionId;
     m_userId := "alice";
     m_payload := JsObj [("delta", JsStr text); ("version", JsNum 7)];
     m_timestamp := 0 |}.


Definition language_change (sessionId language : string)
    : WebSocketMessage :=
  {| m_type := "language-changed"; m_sessionId := JsStr sessionId;
     m_userId := "alice"; m_payload := JsStr language; m_timestamp := 0 |}.

End Samples.

(** ** Observations on traces *)
Module Traces.
Import Gateway.

(** Consecutive times are at least [gap] apart, the first at least [gap]
    after [last]. *)
Fixpoint spaced (gap last : Z) (ts : list Z) : Prop :=
  match ts with
  | [] => True
  | t :: ts' => (last + gap ≤ t)%Z ∧ spaced gap t ts'
  end.

(** The one-second window that starts at [T]. *)
Definition in_window (T t : Z) : Prop := (T ≤ t < T + 1000)%Z.

#[global] Instance in_window_dec T t : Decision (in_window T t).
Proof. unfold in_window. apply _. Defined.

Definition is_disconnect (a : Action) : bool :=
  match a with
  | Disconnect _ _ => true
  | _ => false
  end.




(** The clock readings of a message event. *)
Definition action_clock (a : Action) : option Clock :=
  match a with
  | CodeUpdate _ _ clock | CursorUpdate _ _ clock
  | LanguageChange _ _ clock => Some clock
  | _ => None
  end.

(** The readings at the throttle ([c_now]) of the message events of [tr]
    on which the gateway, started in [st], emitted an effect that [p]
    picks. *)
Fixpoint readings_of (p : Effect → bool) (st : State) (tr : list Action)
    : list Z :=
  match tr with
  | [] => []
  | a :: tr' =>
      let '(st1, out1) := step st a in
      match action_clock a with
      | Some clock =>
          if existsb p out1 then c_now clock :: readings_of p st1 tr'
          else readings_of p st1 tr'
      | None => readings_of p st1 tr'
      end
  end.


(** Every connection that the gateway has bound to a session sits in that
    session's room, and is bound to a user as well. *)
Definition bound_in_room (st : State) : Prop :=
  ∀ client,
    match userSessions st !! client, socketUsers st !! client with
    | Some sessionId, Some userId =>
        sessionId ≠ "" ∧ userId ≠ ""
        ∧ client ∈ room_members (rooms st) sessionId
    | None, None => True
    | _, _ => False
    end.


(** The version counter of a session, if the registry holds it. *)
Definition version_in (sessionId : string) (r : SessionsService.Registry)
    : option Z :=
  SessionsService.sd_codeVersion <$> Map_get sessionId r.

Definition current_version (sessionId : string) (st : State) : option Z :=
  version_in sessionId (sessions st).
End Traces.

(** Case analysis along the branches of a handler; the branch in which
    the rooms lookup of [handleCodeUpdate] answers is not there. *)
Ltac handler_cases :=
  repeat (case_match || case_bool_decide); simpl;
  try match goal with
      | H : Gateway.server_sockets_adapter_rooms _ = Some _ |- _ =>
          by vm_compute in H
      end.

(** ** [sessions.service.ts], continued: [joinSession] *)
Module SessionsServiceJoin.
Import SessionsService.

(** The answer of [joinSession]. *)
Record JoinResult : Type := mkJoinResult {
  j_sessionId : string;
  j_userId : string;
  j_wsUrl : string;
  j_participantCount : nat
}.

(** [joinSession(sessionId, userId, userName)]; [WS_URL] is
    [process.env.WS_URL].  The user is not added here but when the socket
    connects. *)
Definition joinSession (WS_URL : option string)
    (sessionId userId userName : string) (sessions : Registry)
    : option JoinResult :=
  match Map_get sessionId sessions with
  | None => None
  | Some sessionData =>
      Some {| j_sessionId := sessionId;
              j_userId := userId;
              j_wsUrl := RateLimitGuard.opt_or WS_URL "ws://localhost:3001";
              j_participantCount := Map_size (sd_users sessionData) |}
  end.
End SessionsServiceJoin.

(** ** [sessions.controller.ts]: the HTTP routes of the registry *)
Module SessionsController.
Import SessionsService SessionsServiceJoin.

(** A route returns a value or throws [NotFoundException(message)]. *)
Inductive Response (A : Type) : Type :=
| Ok (a : A)
| NotFound (message : string).
Arguments Ok {A} a.
Arguments NotFound {A} message.

Definition code (c : Ascii.ascii) : nat := Ascii.nat_of_ascii c.

(** [[0-9a-f]] under the [i] flag *)
Definition is_hex (c : Ascii.ascii) : bool :=
  (Nat.leb 48 (code c) && Nat.leb (code c) 57)
  || (Nat.leb 97 (code c) && Nat.leb (code c) 102)
  || (Nat.leb 65 (code c) && Nat.leb (code c) 70).

(** [[1-5]] *)
Definition is_version (c : Ascii.ascii) : bool :=
  Nat.leb 49 (code c) && Nat.leb (code c) 53.

(** [[89ab]] under the [i] flag *)
Definition is_variant (c : Ascii.ascii) : bool :=
  Nat.eqb (code c) 56 || Nat.eqb (code c) 57
  || Nat.eqb (code c) 97 || Nat.eqb (code c) 98
  || Nat.eqb (code c) 65 || Nat.eqb (code c) 66.

Definition is_dash (c : Ascii.ascii) : bool := Nat.eqb (code c) 45.

(** Match [n] characters of class [p] at the head of [s]; the rest. *)
Fixpoint chars (p : Ascii.ascii → bool) (n : nat) (s : string) : option string :=
  match n with
  | 0 => Some s
  | S n' =>
      match s with
      | String c s' => if p c then chars p n' s' else None
      | EmptyString => None
      end
  end.

(** The classes and repetition counts of the pattern, in order. *)
Definition uuid_pattern : list ((Ascii.ascii → bool) * nat) :=
  [ (is_hex, 8); (is_dash, 1); (is_hex, 4); (is_dash, 1);
    (is_version, 1); (is_hex, 3); (is_dash, 1);
    (is_variant, 1); (is_hex, 3); (is_dash, 1); (is_hex, 12) ].

Fixpoint match_pattern (pattern : list ((Ascii.ascii → bool) * nat))
    (s : string) : option string :=
  match pattern with
  | [] => Some s
  | (p, n) :: pattern' =>
      match chars p n s with
      | Some rest => match_pattern pattern' rest
      | None => None
      end
  end.

(** [isValidUUID]: the test of
    [/^[0-9a-f]{8}-[0-9a-f]{4}-[1-5][0-9a-f]{3}-[89ab][0-9a-f]{3}-[0-9a-f]{12}$/i] *)
Definition isValidUUID (uuid : string) : bool :=
  match match_pattern uuid_pattern uuid with
  | Some EmptyString => true
  | _ => false
  end.

(** [@Post() createSession]; the id is the value of [uuidv4()]. *)
Definition createSession (sessionId : string) (now : Z) (language : Language)
    (sessions : Registry) : Registry * Session :=
  SessionsService.createSession sessionId now language sessions.

(** The answer of [listSessions]. *)
Record Page : Type := mkPage {
  p_sessions : list Session;
  p_total : nat;
  p_limit : Z;
  p_offset : Z
}.

(** [limit ? Math.min(Math.max(1, limit), 100) : 20]; a missing or
    non-numeric query parameter is [None], and [0] is falsy as well.  The
    parameters are taken to be integers. *)
Definition limitNum (limit : option Z) : Z :=
  match limit with
  | Some l => if Z.eqb l 0 then 20 else Z.min (Z.max 1 l) 100
  | None => 20
  end.

(** [offset ? Math.max(0, offset) : 0] *)
Definition offsetNum (offset : option Z) : Z :=
  match offset with
  | Some o => if Z.eqb o 0 then 0 else Z.max 0 o
  | None => 0
  end.

(** [@Get() listSessions] *)
Definition listSessions (limit offset : option Z) (sessions : Registry)
    : Page :=
  let '(page, total) :=
    SessionsService.listSessions (Z.to_nat (limitNum limit))
      (Z.to_nat (offsetNum offset)) sessions in
  {| p_sessions := page; p_total := total;
     p_limit := limitNum limit; p_offset := offsetNum offset |}.

(** [@Get(':sessionId') getSession] *)
Definition getSession (sessionId : string) (sessions : Registry)
    : Response Session :=
  if negb (isValidUUID sessionId) then NotFound "Invalid session ID format"
  else match SessionsService.getSession sessionId sessions with
       | None => NotFound "Session not found"
       | Some session => Ok session
       end.

(** [@Delete(':sessionId') deleteSession] *)
Definition deleteSession (sessionId : string) (sessions : Registry)
    : Registry * Response unit :=
  if negb (isValidUUID sessionId) then
    (sessions, NotFound "Invalid session ID format")
  else
    let '(sessions', deleted) :=
      SessionsService.deleteSession sessionId sessions in
    if negb deleted then (sessions', NotFound "Session not found")
    else (sessions', Ok tt).

(** [@Post(':sessionId/join') joinSession] *)
Definition joinSession (WS_URL : option string)
    (sessionId userId userName : string) (sessions : Registry)
    : Response JoinResult :=
  if negb (isValidUUID sessionId) then NotFound "Invalid session ID format"
  else match SessionsServiceJoin.joinSession WS_URL sessionId userId userName
               sessions with
       | None => NotFound "Session not found"
       | Some result => Ok result
       end.
End SessionsController.

(** ** The guard over a sequence of requests *)
Module RateLimitRuns.
Import RateLimitGuard.

(** The same request arriving at the times [ts], in order. *)
Fixpoint verdicts (request : Request) (ts : list Z) (store : RateLimitStore)
    : RateLimitStore * list Verdict :=
  match ts with
  | [] => (store, [])
  | now :: ts' =>
      let '(store1, v) := canActivate request now store in
      let '(store2, vs) := verdicts request ts' store1 in
      (store2, v :: vs)
  end.

Definition is_allowed (v : Verdict) : bool :=
  match v with
  | Allowed => true
  | Rejected _ _ => false
  end.
End RateLimitRuns.

(** ** Further observations on gateway traces *)
Module MoreTraces.
Import Gateway Traces.

(** A ['cursor-update'] broadcast that [userId] caused. *)
Definition is_cursor_of (userId : string) (e : Effect) : bool :=
  match e with
  | ClientToEmit _ _ "cursor-update" (Envelope _ _ user (PCursor _) _) =>
      String.eqb user userId
  | _ => false
  end.

(** What one step does to a throttle entry and whether it emits what [p]
    picks: either it emits none and the entry does not go back, or the step
    is a message event, the entry is its reading at the throttle, and that
    is at least [gap] after the entry before. *)
Definition throttled_step (gap : Z) (p : Effect → bool)
    (last last1 : Z) (a : Action) (out : list Effect) : Prop :=
  (existsb p out = false ∧ (last ≤ last1)%Z)
  ∨ (existsb p out = true
     ∧ ∃ clock, action_clock a = Some clock ∧ last1 = c_now clock
                ∧ (last + gap ≤ last1)%Z).


(** The actions that come over a socket. *)
Definition is_socket_action (a : Action) : bool :=
  match a with
  | HttpCreateSession _ _ _ | HttpDeleteSession _ | CleanupTick _ => false
  | _ => true
  end.

(** The user ids in the presence snapshot of a session. *)
Definition presence_ids (sessionId : string) (st : State) : list string :=
  SessionsService.u_id
    <$> SessionsService.getSessionUsers sessionId (sessions st).

(** Every user of the session is filed under the user's own id. *)
Definition keyed_by_id (sessionData : SessionsService.SessionData) : Prop :=
  Forall (fun entry => SessionsService.u_id entry.2 = entry.1)
    (SessionsService.sd_users sessionData).

(** The registry is consistent and every users map is keyed by user id. *)
Definition sound (r : SessionsService.Registry) : Prop :=
  RegistryOps.consistent r ∧ Forall (fun entry => keyed_by_id entry.2) r.

(** The user ids that a ['presence-update'] frame lists. *)
Definition presence_frame_ids (e : Effect) : option (list string) :=
  match e with
  | ServerToEmit _ "presence-update" (Envelope _ _ _ (PPresence users) _) =>
      Some ((fun u => u.1.1.1) <$> users)
  | _ => None
  end.

(** The language of a session, if the registry holds it. *)
Definition language_in (sessionId : string) (st : State) : option Language :=
  SessionsService.sd_language
    <$> SessionsService.getSessionData sessionId (sessions st).

(** The language that a ['language-changed'] broadcast to the room
    [sessionId] announces. *)
Definition announced_language (sessionId : string) (d : Delivery)
    : option Language :=
  match d.1 with
  | ServerToEmit room "language-changed"
      (Envelope _ _ _ (PLanguage language) _) =>
      if String.eqb room sessionId then Some language else None
  | _ => None
  end.

Definition announced_languages (sessionId : string) (out : list Delivery)
    : list Language :=
  omap (announced_language sessionId) out.

(** A ['language-changed'] broadcast that [userId] caused. *)
Definition is_language_change_of (userId : string) (e : Effect) : bool :=
  match e with
  | ServerToEmit _ "language-changed" (Envelope _ _ user (PLanguage _) _) =>
      String.eqb user userId
  | _ => false
  end.

(** A call of [createSession] or [deleteSession] for [sessionId], or a
    sweep. *)
Definition touches_session (sessionId : string) (a : Action) : bool :=
  match a with
  | HttpCreateSession s _ _ | HttpDeleteSession s => String.eqb s sessionId
  | CleanupTick _ => true
  | _ => false
  end.
End MoreTraces.

(** ** [pages/InterviewRoom.tsx]: the participant list of the client *)
Module InterviewRoom.

(** [interface User] of [types/index.ts] *)
Record User : Type := mkUser { id : string; name : string; color : string }.

(** The updater that [onUserJoined] passes to [setUsers].  The state starts
    as [[]] and every [setUsers] stores an array, so [prev] is a list and
    the branches for [!Array.isArray(prev)] are not taken. *)
Definition onUserJoined (user : User) (prev : list User) : list User :=
  match List.find (fun u => String.eqb (id u) (id user)) prev with
  | Some _ => prev
  | None => (prev ++ [user])%list
  end.

(** The updater that [onUserLeft] passes to [setUsers]. *)
Definition onUserLeft (leftUserId : string) (prev : list User) : list User :=
  List.filter (fun u => negb (String.eqb (id u) leftUserId)) prev.

End InterviewRoom.


(** ** [hooks/useWebSocket.ts], continued: the effects and the senders *)
Module UseWebSocketEffects.
Import Js UseWebSocket.

(** The effect that depends on [[options.sessionId, options.userId]]. *)
Definition effect (opts : Options) (h : Hook) : Hook * list Call :=
  let currentConnection := connectedToRef h in
  let needsReconnect :=
    match currentConnection with
    | None => true
    | Some (sessionId, userId) =>
        negb (String.eqb sessionId (o_sessionId opts))
        || negb (String.eqb userId (o_userId opts))
    end in
  if needsReconnect then
    let '(h1, c1) :=
      match socketRef h, currentConnection with
      | Some _, Some _ =>
          ({| isConnected := isConnected h;
              connectionError := connectionError h;
              socketRef := None;
              reconnectAttemptsRef := reconnectAttemptsRef h;
              reconnectTimeoutRef := reconnectTimeoutRef h;
              connectedToRef := connectedToRef h |},
           [RemoveAllListeners; SocketDisconnect])
      | _, _ => (h, [])
      end in
    let h2 :=
      {| isConnected := isConnected h1;
         connectionError := connectionError h1;
         socketRef := socketRef h1;
         reconnectAttemptsRef := reconnectAttemptsRef h1;
         reconnectTimeoutRef := reconnectTimeoutRef h1;
         connectedToRef := Some (o_sessionId opts, o_userId opts) |} in
    match socketRef h2 with
    | Some true => (h2, c1)
    | _ => let '(h3, c3) := connect opts h2 in (h3, (c1 ++ c3)%list)
    end
  else
    match socketRef h with
    | None => connect opts h
    | Some _ => (h, [])
    end.

(** The cleanup that runs when the component unmounts. *)
Definition unmount (h : Hook) : Hook * list Call :=
  let '(h1, c1) :=
    match socketRef h with
    | Some _ =>
        ({| isConnected := isConnected h;
            connectionError := connectionError h;
            socketRef := None;
            reconnectAttemptsRef := reconnectAttemptsRef h;
            reconnectTimeoutRef := reconnectTimeoutRef h;
            connectedToRef := connectedToRef h |},
         [RemoveAllListeners; SocketDisconnect])
    | None => (h, [])
    end in
  ({| isConnected := isConnected h1;
      connectionError := connectionError h1;
      socketRef := socketRef h1;
      reconnectAttemptsRef := reconnectAttemptsRef h1;
      reconnectTimeoutRef := reconnectTimeoutRef h1;
      connectedToRef := None |}, c1).


(** What a sender emits: nothing unless the socket is connected. *)
Definition send (type : string) (payload : JsValue) (now : Z)
    (opts : Options) (h : Hook) : option Gateway.WebSocketMessage :=
  match socketRef h with
  | Some true =>
      Some {| Gateway.m_type := type;
              Gateway.m_sessionId := JsStr (o_sessionId opts);
              Gateway.m_userId := o_userId opts;
              Gateway.m_payload := payload;
              Gateway.m_timestamp := now |}
  | _ => None
  end.


(** [sendCursorUpdate(position)] *)
Definition sendCursorUpdate (position : JsValue) (now : Z)
    (opts : Options) (h : Hook) : option Gateway.WebSocketMessage :=
  send "cursor-update" (JsObj [("position", position)]) now opts h.



End UseWebSocketEffects.
(* ===================================================================== *)
(** * Part II: properties                                                 *)
(* ===================================================================== *)

(** ** Facts about the insertion-ordered map *)
Section JsMapFacts.
Context {V : Type}.
Implicit Types (m : list (string * V)) (k : string) (v : V).

Lemma Map_get_set_eq k v m : Map_get k (Map_set k v m) = Some v.
Proof.
  induction m as [|[k' v'] m IH]; simpl.
  - by rewrite decide_True.
  - destruct (decide (k = k')) as [->|Hne]; simpl.
    + by rewrite decide_True.
    + by rewrite decide_False.
Qed.

Lemma Map_get_set_ne k k' v m :
  k ≠ k' → Map_get k' (Map_set k v m) = Map_get k' m.
Proof.
  intros Hne. induction m as [|[k0 v0] m IH]; simpl.
  - rewrite decide_False; [done | congruence].
  - destruct (decide (k = k0)) as [->|Hk]; simpl.
    + rewrite !decide_False; [done | congruence | congruence].
    + destruct (decide (k' = k0)); [done | apply IH].
Qed.

Lemma Map_get_delete_eq k m : Map_get k (Map_delete k m) = None.
Proof.
  induction m as [|[k' v'] m IH]; simpl; [done|].
  destruct (decide (k = k')) as [->|Hne]; simpl; [done|].
  by rewrite decide_False.
Qed.

Lemma Map_get_delete_ne k k' m :
  k ≠ k' → Map_get k' (Map_delete k m) = Map_get k' m.
Proof.
  intros Hne. induction m as [|[k0 v0] m IH]; simpl; [done|].
  destruct (decide (k = k0)) as [->|Hk]; simpl.
  - rewrite decide_False; [apply IH | congruence].
  - destruct (decide (k' = k0)); [done | apply IH].
Qed.

Lemma Map_get_Some_elem k v m : Map_get k m = Some v → (k, v) ∈ m.
Proof.
  induction m as [|[k' v'] m IH]; simpl; [done|].
  destruct (decide (k = k')) as [->|Hne].
  - intros [= ->]. left.
  - intros H. right. by apply IH.
Qed.

Lemma Map_get_None_keys k m : Map_get k m = None → k ∉ Map_keys m.
Proof.
  unfold Map_keys. induction m as [|[k' v'] m IH]; simpl.
  - intros _. apply not_elem_of_nil.
  - destruct (decide (k = k')) as [->|Hne]; [done|].
    intros H. apply not_elem_of_cons. split; [done | by apply IH].
Qed.

Lemma Map_elem_get k v m : Map_wf m → (k, v) ∈ m → Map_get k m = Some v.
Proof.
  unfold Map_wf, Map_keys. induction m as [|[k' v'] m IH]; simpl.
  - intros _ H. by apply elem_of_nil in H.
  - intros Hnd Hin. apply NoDup_cons in Hnd as [Hk' Hnd].
    apply elem_of_cons in Hin as [[= -> ->]|Hin].
    + by rewrite decide_True.
    + destruct (decide (k = k')) as [->|Hne]; [|by apply IH].
      exfalso. apply Hk'. apply list_elem_of_fmap. by exists (k', v).
Qed.

Lemma Map_keys_delete_subseteq k m : Map_keys (Map_delete k m) ⊆ Map_keys m.
Proof.
  unfold Map_keys. induction m as [|[k' v'] m IH]; simpl; [done|].
  destruct (decide (k = k')); simpl.
  - intros x Hx. right. by apply IH.
  - intros x Hx. apply elem_of_cons in Hx as [->|Hx]; [left|right; by apply IH].
Qed.

Lemma Map_wf_delete k m : Map_wf m → Map_wf (Map_delete k m).
Proof.
  unfold Map_wf. induction m as [|[k' v'] m IH]; simpl; [done|].
  unfold Map_keys in *. simpl. intros Hnd.
  apply NoDup_cons in Hnd as [Hk' Hnd].
  destruct (decide (k = k')); simpl; [by apply IH|].
  apply NoDup_cons. split; [|by apply IH].
  intros Hin. apply Hk'. by apply (Map_keys_delete_subseteq k m).
Qed.

Lemma Map_keys_set k v m :
  Map_keys (Map_set k v m) =
  if Map_has k m then Map_keys m else (Map_keys m ++ [k])%list.
Proof.
  unfold Map_keys, Map_has. induction m as [|[k' v'] m IH]; csimpl; [done|].
  destruct (decide (k = k')) as [->|Hne]; csimpl; [done|].
  rewrite IH. by destruct (Map_get k m).
Qed.

Lemma Map_wf_set k v m : Map_wf m → Map_wf (Map_set k v m).
Proof.
  unfold Map_wf. rewrite Map_keys_set. unfold Map_has.
  destruct (Map_get k m) eqn:Hget; [done|].
  intros Hnd. apply NoDup_app. split_and!; [done| |apply NoDup_singleton].
  intros x Hx Hx'. apply list_elem_of_singleton in Hx' as ->.
  by apply Map_get_None_keys in Hget.
Qed.

Lemma Forall_Map_set (P : V → Prop) k v m :
  Forall (fun e => P e.2) m → P v → Forall (fun e => P e.2) (Map_set k v m).
Proof.
  intros Hall Hv. induction m as [|[k' v'] m IH]; simpl.
  - by constructor.
  - apply Forall_cons in Hall as [Hv' Hall].
    destruct (decide (k = k')); constructor; auto.
Qed.

Lemma Forall_Map_delete (P : V → Prop) k m :
  Forall (fun e => P e.2) m → Forall (fun e => P e.2) (Map_delete k m).
Proof.
  intros Hall. induction m as [|[k' v'] m IH]; simpl; [done|].
  apply Forall_cons in Hall as [Hv' Hall].
  destruct (decide (k = k')); [auto | constructor; auto].
Qed.

Lemma Forall_Map_get (P : V → Prop) k v m :
  Forall (fun e => P e.2) m → Map_get k m = Some v → P v.
Proof.
  intros Hall Hget. apply Map_get_Some_elem in Hget.
  rewrite Forall_forall in Hall. by apply (Hall (k, v)).
Qed.
End JsMapFacts.

(** ** The session registry *)
Section RegistryFacts.
Import SessionsService RegistryOps.

Lemma Map_size_set_present {V} (k : string) (v v0 : V) m :
  Map_get k m = Some v0 → Map_size (Map_set k v m) = Map_size m.
Proof.
  unfold Map_size. induction m as [|[k' v'] m IH]; simpl; [done|].
  destruct (decide (k = k')); simpl; [done|]. intros H. by rewrite IH.
Qed.

Lemma counted_fresh sessionId now language :
  counted {| sd_id := sessionId; sd_createdAt := now;
             sd_language := language; sd_participantCount := 0;
             sd_users := []; sd_codeVersion := 0 |}.
Proof. split; [done | apply NoDup_nil_2]. Qed.

(** The sweep only ever deletes. *)
Lemma sweep_consistent now (l : Registry) (acc : Registry) :
  consistent acc →
  consistent
    (fold_left
       (fun acc entry =>
          if inactive now entry.2 then Map_delete entry.1 acc else acc)
       l acc).
Proof.
  revert acc. induction l as [|[k sd] l IH]; intros acc Hacc; simpl; [done|].
  apply IH. destruct (inactive now sd); [|done].
  destruct Hacc as [Hwf Hall]. split.
  - by apply Map_wf_delete.
  - by apply Forall_Map_delete.
Qed.

Lemma apply_consistent r op : consistent r → consistent (apply r op).
Proof.
  intros [Hwf Hall]. destruct op; simpl.
  - split; [by apply Map_wf_set|].
    apply (Forall_Map_set counted); [done | apply counted_fresh].
  - split; [by apply Map_wf_delete | by apply Forall_Map_delete].
  - unfold addUserToSession.
    destruct (Map_get sessionId r) as [sd|] eqn:Hget; simpl; [|done].
    pose proof (Forall_Map_get counted _ _ _ Hall Hget) as [Hpc Hu].
    split; [by apply Map_wf_set|].
    apply (Forall_Map_set counted); [done|].
    split; simpl; [done | by apply Map_wf_set].
  - unfold removeUserFromSession.
    destruct (Map_get sessionId r) as [sd|] eqn:Hget; simpl; [|done].
    pose proof (Forall_Map_get counted _ _ _ Hall Hget) as [Hpc Hu].
    destruct (Map_has userId (sd_users sd)); simpl; [|done].
    split; [by apply Map_wf_set|].
    apply (Forall_Map_set counted); [done|].
    split; simpl; [done | by apply Map_wf_delete].
  - unfold updateUserLastSeen.
    destruct (Map_get sessionId r) as [sd|] eqn:Hget; [|done].
    pose proof (Forall_Map_get counted _ _ _ Hall Hget) as [Hpc Hu].
    destruct (Map_get userId (sd_users sd)) as [user|] eqn:Hu'; [|done].
    split; [by apply Map_wf_set|].
    apply (Forall_Map_set counted); [done|].
    split; simpl.
    + by rewrite (Map_size_set_present _ _ _ _ Hu').
    + by apply Map_wf_set.
  - unfold updateSessionLanguage.
    destruct (Map_get sessionId r) as [sd|] eqn:Hget; simpl; [|done].
    pose proof (Forall_Map_get counted _ _ _ Hall Hget) as [Hpc Hu].
    split; [by apply Map_wf_set|].
    by apply (Forall_Map_set counted).
  - unfold incrementCodeVersion.
    destruct (Map_get sessionId r) as [sd|] eqn:Hget; simpl; [|done].
    pose proof (Forall_Map_get counted _ _ _ Hall Hget) as [Hpc Hu].
    split; [by apply Map_wf_set|].
    by apply (Forall_Map_set counted).
  - by apply sweep_consistent.
Qed.

Lemma apply_all_consistent ops : consistent (apply_all ops).
Proof.
  unfold apply_all.
  assert (Hgen : ∀ r, consistent r → consistent (foldl apply r ops)).
  { induction ops as [|op ops IH]; intros r Hr; simpl; [done|].
    apply IH. by apply apply_consistent. }
  apply Hgen. split; [apply NoDup_nil_2 | constructor].
Qed.

(** Claim C10.  Whatever sequence of [SessionsService] operations has run
    ([createSession], [deleteSession], [addUserToSession],
    [removeUserFromSession], [updateUserLastSeen], [updateSessionLanguage],
    [incrementCodeVersion] and the sweep), every stored session has
    [participantCount] equal to the size of its users map, whose keys are
    pairwise distinct; hence the [Session] that [getSession] returns, and
    every [Session] on a page of [listSessions], reports the number of
    current participants. *)
Theorem participantCount_equals_users_size (ops : list Op) :
  let r := apply_all ops in
  (∀ sessionId sd,
      getSessionData sessionId r = Some sd →
      sd_participantCount sd = Map_size (sd_users sd)
      ∧ NoDup (Map_keys (sd_users sd)))
  ∧ (∀ sessionId s,
      getSession sessionId r = Some s →
      ∃ sd, getSessionData sessionId r = Some sd
            ∧ s_participantCount s = Map_size (sd_users sd))
  ∧ (∀ limit offset s,
      s ∈ (listSessions limit offset r).1 →
      ∃ sd, sd ∈ Map_values r ∧ s = toSessionResponse sd
            ∧ s_participantCount s = Map_size (sd_users sd)).
Proof.
  intros r. destruct (apply_all_consistent ops) as [Hwf Hall].
  fold r in Hwf, Hall. split_and!.
  - intros sessionId sd Hget.
    apply (Forall_Map_get counted _ _ _ Hall Hget).
  - intros sessionId s. unfold getSession, getSessionData.
    destruct (Map_get sessionId r) as [sd|] eqn:Hget; [|done].
    intros [= <-]. exists sd. split; [done|]. simpl.
    apply (Forall_Map_get counted _ _ _ Hall Hget).
  - intros limit offset s. unfold listSessions. simpl. intros Hin.
    apply elem_of_take in Hin as (i & Hi & _).
    rewrite lookup_drop in Hi. apply list_elem_of_lookup_2 in Hi.
    apply list_elem_of_fmap in Hi as (sd & -> & Hsd).
    exists sd. split_and!; [done..|]. simpl.
    unfold Map_values in Hsd.
    apply list_elem_of_fmap in Hsd as ([k sd'] & -> & Hin).
    rewrite Forall_forall in Hall. apply (Hall _ Hin).
Qed.

(** What the sweep leaves of one entry. *)
Lemma sweep_get_absent now k (l acc : Registry) :
  k ∉ Map_keys l →
  Map_get k
    (fold_left
       (fun acc entry =>
          if inactive now entry.2 then Map_delete entry.1 acc else acc)
       l acc)
  = Map_get k acc.
Proof.
  unfold Map_keys. revert acc.
  induction l as [|[k' sd'] l IH]; intros acc Hk; simpl; [done|].
  csimpl in Hk. apply not_elem_of_cons in Hk as [Hne Hk].
  rewrite IH; [|done].
  destruct (inactive now sd'); [|done].
  by apply Map_get_delete_ne.
Qed.

Lemma sweep_get_present now k sd (l acc : Registry) :
  Map_wf l → (k, sd) ∈ l →
  Map_get k
    (fold_left
       (fun acc entry =>
          if inactive now entry.2 then Map_delete entry.1 acc else acc)
       l acc)
  = if inactive now sd then None else Map_get k acc.
Proof.
  unfold Map_wf, Map_keys. revert acc.
  induction l as [|[k' sd'] l IH]; intros acc Hnd Hin; simpl.
  - by apply elem_of_nil in Hin.
  - csimpl in Hnd. apply NoDup_cons in Hnd as [Hk' Hnd].
    apply elem_of_cons in Hin as [[= <- <-]|Hin].
    + rewrite sweep_get_absent; [|done].
      destruct (inactive now sd); [apply Map_get_delete_eq | done].
    + rewrite IH; [|done..].
      destruct (inactive now sd); [done|].
      destruct (inactive now sd'); [|done].
      apply Map_get_delete_ne. intros ->. apply Hk'.
      apply list_elem_of_fmap. by exists (k, sd).
Qed.

Lemma cleanupInactiveSessions_get now (r : Registry) sessionId sd :
  Map_wf r → Map_get sessionId r = Some sd →
  Map_get sessionId (cleanupInactiveSessions now r)
  = if inactive now sd then None else Some sd.
Proof.
  intros Hwf Hget. unfold cleanupInactiveSessions, Map_entries.
  rewrite (sweep_get_present now sessionId sd); [|done|].
  - by rewrite Hget.
  - by apply Map_get_Some_elem.
Qed.

(** Claim C8.  At a tick of the sweep, a session that is in the registry
    is deleted when it is older than [SESSION_TIMEOUT] (30 minutes) and
    has no participant, so that [getSession] then returns nothing; it is
    kept, unchanged, when it has a participant, however old, and when it is
    not older than the timeout, whoever is in it. *)
Theorem cleanup_deletes_exactly_old_empty_sessions
    (now : Z) (r : Registry) (sessionId : string) (sd : SessionData) :
  Map_wf r →
  getSessionData sessionId r = Some sd →
  let r' := cleanupInactiveSessions now r in
  SESSION_TIMEOUT = 1800000%Z
  ∧ ((now - sd_createdAt sd > SESSION_TIMEOUT)%Z
     ∧ Map_size (sd_users sd) = 0 →
     getSession sessionId r' = None)
  ∧ (Map_size (sd_users sd) ≠ 0 →
     getSession sessionId r' = Some (toSessionResponse sd)
     ∧ getSessionData sessionId r' = Some sd)
  ∧ ((now - sd_createdAt sd ≤ SESSION_TIMEOUT)%Z →
     getSession sessionId r' = Some (toSessionResponse sd)
     ∧ getSessionData sessionId r' = Some sd).
Proof.
  intros Hwf Hget r'. unfold getSession, getSessionData in *.
  subst r'. rewrite (cleanupInactiveSessions_get now r sessionId sd Hwf Hget).
  unfold inactive. split_and!.
  - reflexivity.
  - intros [Hage Hempty].
    rewrite !bool_decide_eq_true_2; [done | done | done].
  - intros Hne. rewrite (bool_decide_eq_false_2 (Map_size _ = 0)); [|done].
    by rewrite andb_false_r.
  - intros Hage. rewrite bool_decide_eq_false_2; [done | lia].
Qed.
End RegistryFacts.

(** A registry with an old empty session, an old occupied one and a young
    empty one, swept at time 2000000. *)
Lemma cleanup_deletes_exactly_old_empty_sessions_witness :
  let user := SessionsService.mkUser "u1" "Ann" 0 0 "sock1" in
  let old_empty := SessionsService.mkData "a" 0 JAVASCRIPT 0 [] 0 in
  let old_busy :=
    SessionsService.mkData "b" 0 PYTHON 1 [("u1", user)] 3 in
  let r := [("a", old_empty); ("b", old_busy)] in
  SessionsService.getSession "a"
    (SessionsService.cleanupInactiveSessions 2000000 r) = None
  ∧ SessionsService.getSession "b"
      (SessionsService.cleanupInactiveSessions 2000000 r)
    = Some (SessionsService.toSessionResponse old_busy).
Proof.
  intros user old_empty old_busy r.
  assert (Hwf : Map_wf r).
  { unfold Map_wf, Map_keys, r. simpl.
    apply (bool_decide_unpack (NoDup ["a"; "b"])). by vm_compute. }
  split.
  - destruct (cleanup_deletes_exactly_old_empty_sessions
                2000000 r "a" old_empty Hwf eq_refl) as (_ & Hdel & _ & _).
    apply Hdel. split; [by vm_compute | reflexivity].
  - destruct (cleanup_deletes_exactly_old_empty_sessions
                2000000 r "b" old_busy Hwf eq_refl) as (_ & _ & Hkeep & _).
    apply Hkeep. by vm_compute.
Defined.

(** ** The HTTP rate limiter *)
Section RateLimitFacts.
Import RateLimitGuard Samples.

(** The guard rejects exactly when the key has a record whose window is
    still open and whose count has reached the maximum that [getLimit]
    selects; the store is then left as it was. *)
Lemma canActivate_rejects_iff (request : Request) (now : Z)
    (store : RateLimitStore) :
  (canActivate request now store).2 = Rejected "RATE_LIMIT_EXCEEDED" 429
  ↔ ∃ record, store !! getKey request = Some record
              ∧ (now ≤ resetTime record)%Z
              ∧ (max (getLimit request) ≤ count record)%Z.
Proof.
  unfold canActivate.
  destruct (store !! getKey request) as [record|] eqn:Hrec.
  - destruct (bool_decide (now > resetTime record)%Z) eqn:Hopen.
    + apply bool_decide_eq_true in Hopen. simpl. split; [discriminate|].
      intros (r & [= <-] & ? & ?). lia.
    + apply bool_decide_eq_false in Hopen.
      destruct (bool_decide (count record >= max (getLimit request))%Z)
        eqn:Hfull; simpl.
      * apply bool_decide_eq_true in Hfull. split; [|done].
        intros _. exists record. split_and!; [done | lia | lia].
      * apply bool_decide_eq_false in Hfull. split; [discriminate|].
        intros (r & [= <-] & ? & ?). lia.
  - simpl; split; [discriminate | intros (r & [=] & _)].
Qed.

Lemma canActivate_rejected_store (request : Request) (now : Z)
    (store : RateLimitStore) error status :
  (canActivate request now store).2 = Rejected error status →
  (canActivate request now store).1 = store.
Proof.
  unfold canActivate.
  destruct (store !! getKey request) as [record|]; [|discriminate].
  repeat case_bool_decide; simpl; done.
Qed.

(** An allowed request either opens a window with count 1 or adds one to
    the count of the open window. *)
Lemma canActivate_allowed_entry (request : Request) (now : Z)
    (store : RateLimitStore) :
  (canActivate request now store).2 = Allowed →
  (canActivate request now store).1 !! getKey request
  = Some
      match store !! getKey request with
      | Some record =>
          if bool_decide (now > resetTime record)%Z
          then {| count := 1; resetTime := now + window (getLimit request) |}
          else {| count := count record + 1; resetTime := resetTime record |}
      | None => {| count := 1; resetTime := now + window (getLimit request) |}
      end.
Proof.
  unfold canActivate.
  destruct (store !! getKey request) as [record|]; simpl.
  - repeat case_bool_decide; simpl; try done; intros _;
      by rewrite lookup_insert_eq.
  - intros _. by rewrite lookup_insert_eq.
Qed.

(** Claim C7, evaluated on the code.  The limits table gives the join
    route 20 requests per minute, yet [getLimit] never selects that entry:
    the pattern of the create route, ["POST /sessions"] once ["/api"] is
    cut out, is a substring of the join route's key and comes first, so a
    join request is held to 10; and when the route path carries the global
    prefix no pattern matches at all, so join (and create) requests are held
    to the default 100.  With 20 requests counted in an open window the
    prefixed join request is still allowed; with 10 counted the bare one is
    already rejected. *)
Theorem getLimit_never_selects_join_limit :
  max (getLimit join_request_bare) = 10%Z
  ∧ max (getLimit join_request_prefixed) = 100%Z
  ∧ max (getLimit create_request_bare) = 10%Z
  ∧ max (getLimit create_request_prefixed) = 100%Z
  ∧ (canActivate join_request_bare 1000
       {[ getKey join_request_bare := {| count := 10; resetTime := 60000 |} ]}).2
    = Rejected "RATE_LIMIT_EXCEEDED" 429
  ∧ (canActivate join_request_prefixed 1000
       {[ getKey join_request_prefixed :=
            {| count := 20; resetTime := 60000 |} ]}).2
    = Allowed.
Proof. split_and!; by vm_compute. Qed.
End RateLimitFacts.

(** ** The gateway: admission and the checks on inbound events *)
Section GatewayChecks.
Import Js SessionsService Gateway.

Lemma strict_neq_str_same (s : string) : strict_neq_str s (JsStr s) = false.
Proof. simpl. by rewrite String.eqb_refl. Qed.

Lemma strict_neq_str_other (s : string) (v : JsValue) :
  v ≠ JsStr s → strict_neq_str s v = true.
Proof.
  destruct v as [| |s'| |]; simpl; try done.
  intros Hne. destruct (String.eqb_spec s s') as [->|]; [done | done].
Qed.

Lemma truthy_str_Some (o : option string) (s : string) :
  truthy_str o = Some s → o = Some s ∧ s ≠ "".
Proof.
  destruct o as [s'|]; simpl; [|done].
  destruct (String.eqb_spec s' ""); [done|]. by intros [= ->].
Qed.

(** Claim C4.  A connection attempt whose handshake lacks [sessionId],
    [userId] or [userName] (absent or empty), or names a session that the
    registry does not hold, is answered by [client.disconnect()] and nothing
    else: the gateway and the registry are left exactly as they were (no
    presence record, no binding, no room joined), and the one effect reaches
    no connection, so neither ['user-joined'] nor ['presence-update'] is
    emitted to anyone. *)
Theorem handleConnection_rejects_without_trace
    (client : string) (query : Handshake) (now : Z) (st : State) :
  truthy_str (q_sessionId query) = None
  ∨ truthy_str (q_userId query) = None
  ∨ truthy_str (q_userName query) = None
  ∨ (∃ sessionId, q_sessionId query = Some sessionId
                  ∧ getSession sessionId (sessions st) = None) →
  handleConnection client query now st = (st, [ClientDisconnect client])
  ∧ (deliver st (handleConnection client query now st).2).*2 = [∅]
  ∧ ∀ e, e ∈ (handleConnection client query now st).2 →
         effect_event e = None.
Proof.
  intros Hrej.
  assert (Hres : handleConnection client query now st
                 = (st, [ClientDisconnect client])).
  { unfold handleConnection.
    destruct (truthy_str (q_sessionId query)) as [sessionId|] eqn:Hs; [|done].
    destruct (truthy_str (q_userId query)) as [userId|] eqn:Hu; [|done].
    destruct (truthy_str (q_userName query)) as [userName|] eqn:Hn; [|done].
    destruct Hrej as [?|[?|[?|(sid & Hq & Hnone)]]]; try done.
    apply truthy_str_Some in Hs as [Hs _]. rewrite Hq in Hs.
    injection Hs as ->. by rewrite Hnone. }
  rewrite Hres. split_and!; [done | done |].
  intros e He. apply list_elem_of_singleton in He as ->. done.
Qed.

(** Claim C3, as the code has it.  An edit event from a bound connection
    whose envelope names another session than the bound one is answered by a
    private ['error'] frame with code [INVALID_SESSION] and changes nothing
    (no version bump, no throttle entry, no broadcast); a cursor event that
    fails the same check is dropped without any effect. *)
Theorem session_mismatch_is_INVALID_SESSION
    (client : string) (message : WebSocketMessage) (clock : Clock)
    (st : State) (sessionId userId : string) :
  truthy_str (userSessions st !! client) = Some sessionId →
  truthy_str (socketUsers st !! client) = Some userId →
  m_sessionId message ≠ JsStr sessionId →
  handleCodeUpdate client message clock st
  = (st, [ ClientEmit client "error"
             (Envelope "error" (JsStr sessionId) userId
                (PError "INVALID_SESSION" "Session ID mismatch")
                (c_now clock)) ])
  ∧ handleCursorUpdate client message clock st = (st, []).
Proof.
  intros Hs Hu Hne. unfold handleCodeUpdate, handleCursorUpdate.
  rewrite Hs, Hu. by rewrite (strict_neq_str_other _ _ Hne).
Qed.

(** [USER_NOT_IN_SESSION] is what a connection without a binding gets for
    an edit; its cursor events are dropped. *)
Lemma unbound_connection_is_USER_NOT_IN_SESSION
    (client : string) (message : WebSocketMessage) (clock : Clock)
    (st : State) :
  truthy_str (userSessions st !! client) = None
  ∨ truthy_str (socketUsers st !! client) = None →
  handleCodeUpdate client message clock st
  = (st, [ ClientEmit client "error"
             (Envelope "error" (or_else (m_sessionId message) (JsStr ""))
                (default "" (truthy_str (socketUsers st !! client)))
                (PError "USER_NOT_IN_SESSION" "User not connected to session")
                (c_now clock)) ])
  ∧ handleCursorUpdate client message clock st = (st, []).
Proof.
  unfold handleCodeUpdate, handleCursorUpdate.
  destruct (truthy_str (userSessions st !! client));
    destruct (truthy_str (socketUsers st !! client)); intros [?|?]; done.
Qed.

End GatewayChecks.

(** ** Who receives a broadcast *)
Section BroadcastGroup.
Import Js SessionsService Gateway Traces Samples.

Lemma room_members_join client room rs room' :
  room_members (join client room rs) room'
  = if decide (room = room') then {[client]} ∪ room_members rs room
    else room_members rs room'.
Proof.
  unfold room_members at 1, join. rewrite lookup_insert.
  by destruct (decide (room = room')).
Qed.

Lemma room_members_leave_all client rs room :
  room_members (leave_all client rs) room
  = room_members rs room ∖ {[client]}.
Proof.
  unfold room_members, leave_all. rewrite lookup_fmap.
  destruct (rs !! room); simpl; [done|].
  apply set_eq. intros x. rewrite elem_of_difference.
  split; [intros Hx | intros [Hx _]]; by apply not_elem_of_empty in Hx.
Qed.

Lemma truthy_str_nonempty (s : string) : s ≠ "" → truthy_str (Some s) = Some s.
Proof. intros Hne. simpl. by destruct (String.eqb_spec s ""). Qed.

(** The handlers of inbound events leave bindings and rooms alone. *)
Lemma handleCodeUpdate_bindings client message clock st :
  let st' := (handleCodeUpdate client message clock st).1 in
  userSessions st' = userSessions st ∧ socketUsers st' = socketUsers st
  ∧ rooms st' = rooms st.
Proof.
  unfold handleCodeUpdate. repeat (case_match || case_bool_decide); done.
Qed.

Lemma handleCursorUpdate_bindings client message clock st :
  let st' := (handleCursorUpdate client message clock st).1 in
  userSessions st' = userSessions st ∧ socketUsers st' = socketUsers st
  ∧ rooms st' = rooms st.
Proof.
  unfold handleCursorUpdate. repeat (case_match || case_bool_decide); done.
Qed.

Lemma handleLanguageChange_bindings client message clock st :
  let st' := (handleLanguageChange client message clock st).1 in
  userSessions st' = userSessions st ∧ socketUsers st' = socketUsers st
  ∧ rooms st' = rooms st.
Proof.
  unfold handleLanguageChange. repeat (case_match || case_bool_decide); done.
Qed.

Lemma bound_in_room_ext st st' :
  userSessions st' = userSessions st → socketUsers st' = socketUsers st →
  rooms st' = rooms st → bound_in_room st → bound_in_room st'.
Proof. unfold bound_in_room. by intros -> -> ->. Qed.

Lemma handleConnection_bound client query now st :
  bound_in_room st → bound_in_room (handleConnection client query now st).1.
Proof.
  intros Hinv. unfold handleConnection.
  destruct (truthy_str (q_sessionId query)) as [sid|] eqn:Hs; [|done].
  destruct (truthy_str (q_userId query)) as [uid|] eqn:Hu; [|done].
  destruct (truthy_str (q_userName query)) as [name|]; [|done].
  destruct (getSession sid (sessions st)); [|done].
  destruct (addUserToSession sid uid name client now (sessions st))
    as [sessions' [user|]]; [|done].
  apply truthy_str_Some in Hs as [_ Hs]. apply truthy_str_Some in Hu as [_ Hu].
  intros c. simpl. destruct (decide (client = c)) as [->|Hne].
  - rewrite !lookup_insert_eq. split_and!; [done..|].
    rewrite room_members_join, decide_True by done. set_solver.
  - rewrite !lookup_insert_ne by done. specialize (Hinv c).
    destruct (userSessions st !! c) as [sid'|],
        (socketUsers st !! c) as [uid'|];
      try done.
    destruct Hinv as (? & ? & Hin). split_and!; [done..|].
    rewrite room_members_join. case_decide; [subst; set_solver | done].
Qed.

Lemma disconnect_bound client now st :
  bound_in_room st →
  bound_in_room
    (handleDisconnect client now
       (set_rooms st (leave_all client (rooms st)))).1.
Proof.
  intros Hinv. unfold handleDisconnect. simpl userSessions. simpl socketUsers.
  pose proof (Hinv client) as Hc.
  destruct (userSessions st !! client) as [sid|] eqn:Hs,
           (socketUsers st !! client) as [uid|] eqn:Hu; try done.
  - destruct Hc as (Hsid & Huid & _).
    rewrite (truthy_str_nonempty _ Hsid), (truthy_str_nonempty _ Huid).
    intros c. simpl. destruct (decide (client = c)) as [->|Hne].
    + by rewrite !lookup_delete_eq.
    + rewrite !lookup_delete_ne by done. specialize (Hinv c).
      destruct (userSessions st !! c) as [sid'|],
        (socketUsers st !! c) as [uid'|];
        try done.
      destruct Hinv as (? & ? & Hin). split_and!; [done..|].
      rewrite room_members_leave_all. set_solver.
  - simpl. intros c. simpl. destruct (decide (client = c)) as [->|Hne].
    + by rewrite Hs, Hu.
    + specialize (Hinv c).
      destruct (userSessions st !! c) as [sid'|],
        (socketUsers st !! c) as [uid'|];
        try done.
      destruct Hinv as (? & ? & Hin). split_and!; [done..|].
      rewrite room_members_leave_all. set_solver.
Qed.

Lemma step_bound st a : bound_in_room st → bound_in_room (step st a).1.
Proof.
  intros Hinv. destruct a; simpl; try done.
  - by apply handleConnection_bound.
  - by apply disconnect_bound.
  - destruct (handleCodeUpdate_bindings client message clock st) as (?&?&?).
    by eapply bound_in_room_ext.
  - destruct (handleCursorUpdate_bindings client message clock st) as (?&?&?).
    by eapply bound_in_room_ext.
  - destruct (handleLanguageChange_bindings client message clock st) as (?&?&?).
    by eapply bound_in_room_ext.
Qed.

Lemma run_bound tr st : bound_in_room st → bound_in_room (run st tr).1.
Proof.
  revert st. induction tr as [|a tr IH]; intros st Hinv; simpl; [done|].
  pose proof (step_bound st a Hinv) as H1.
  destruct (step st a) as [st1 out1]. specialize (IH st1 H1).
  by destruct (run st1 tr).
Qed.

Lemma init_bound : bound_in_room init.
Proof. intros c. simpl. by rewrite !lookup_empty. Qed.

(** An edit never leaves the gateway: whatever the event and the state,
    nothing that [handleCodeUpdate] emits is a broadcast. *)
Lemma handleCodeUpdate_no_broadcast client message clock st :
  Forall (fun e => is_broadcast e = false)
    (handleCodeUpdate client message clock st).2.
Proof.
  unfold handleCodeUpdate. handler_cases; repeat constructor.
Qed.

(** What an edit does once it is past the checks and the throttle: the
    throttle takes its reading, the version counter moves on by one, and the
    handler is left by the [TypeError] of the rooms lookup (or, for a payload
    that is [undefined] or [null], of [message.payload.delta]) before
    anything is emitted. *)
Lemma handleCodeUpdate_accepted client message clock st sessionId userId v :
  truthy_str (userSessions st !! client) = Some sessionId →
  truthy_str (socketUsers st !! client) = Some userId →
  m_sessionId message = JsStr sessionId →
  (20 ≤ c_now clock - default 0 (codeUpdateThrottle st !! userId))%Z →
  current_version sessionId st = Some v → (0 ≤ v)%Z →
  let r := handleCodeUpdate client message clock st in
  r.2 = [Uncaught "TypeError"]
  ∧ current_version sessionId r.1 = Some (v + 1)%Z
  ∧ codeUpdateThrottle r.1 !! userId = Some (c_now clock).
Proof.
  intros Hs Hu Hm Hthr Hv Hpos. unfold handleCodeUpdate.
  rewrite Hs, Hu, Hm, strict_neq_str_same.
  rewrite bool_decide_eq_false_2 by lia. simpl sessions.
  unfold current_version, version_in, incrementCodeVersion in *.
  destruct (Map_get sessionId (sessions st)) as [sd|] eqn:Hget; [|done].
  simpl in Hv. injection Hv as <-. simpl.
  destruct (Z.eqb_spec (sd_codeVersion sd + 1) (-1)) as [?|_]; [lia|].
  assert (Hver : sd_codeVersion
                   <$> Map_get sessionId
                         (updateUserLastSeen sessionId userId (c_seen clock)
                            (Map_set sessionId
                               {| sd_id := sd_id sd;
                                  sd_createdAt := sd_createdAt sd;
                                  sd_language := sd_language sd;
                                  sd_participantCount :=
                                    sd_participantCount sd;
                                  sd_users := sd_users sd;
                                  sd_codeVersion := sd_codeVersion sd + 1 |}
                               (sessions st)))
                 = Some (sd_codeVersion sd + 1)%Z).
  { unfold updateUserLastSeen. rewrite Map_get_set_eq. simpl.
    destruct (Map_get userId (sd_users sd)); by rewrite Map_get_set_eq. }
  destruct (prop (m_payload message) "delta"); simpl;
    by rewrite Hver, lookup_insert_eq.
Qed.

Lemma step_no_version_broadcast sessionId st a :
  omap (broadcast_version sessionId) (step st a).2 = [].
Proof.
  destruct a; simpl; try done.
  - unfold handleConnection. by repeat case_match.
  - unfold handleDisconnect. simpl. by repeat case_match.
  - unfold handleCodeUpdate. by handler_cases.
  - unfold handleCursorUpdate. by handler_cases.
  - unfold handleLanguageChange. by handler_cases.
Qed.

Lemma run_no_version_broadcast sessionId tr st :
  broadcast_versions sessionId (run st tr).2 = [].
Proof.
  revert st. induction tr as [|a tr IH]; intros st; simpl; [done|].
  pose proof (step_no_version_broadcast sessionId st a) as Hstep.
  destruct (step st a) as [st1 out1]. specialize (IH st1).
  destruct (run st1 tr) as [st2 out2]. simpl in *.
  unfold broadcast_versions in *. rewrite omap_app, IH, app_nil_r.
  unfold deliver. rewrite <- Hstep. clear.
  induction out1 as [|e out IH]; csimpl; [done|]. by rewrite IH.
Qed.




(** Claim C1, evaluated on the code.  An edit that is past the membership
    check and the throttle makes [incrementCodeVersion] run, so the counter
    of its session moves on by one; then the handler reads
    [this.server.sockets.adapter.rooms], which throws for this gateway, and
    is left before [client.to(sessionId).emit].  So no ['code-update'] frame
    is ever emitted, and the versions 1, 2, 3, ... that the counter takes
    reach nobody: after two accepted edits in a fresh session the counter is
    at 2 and nothing was broadcast. *)
Theorem accepted_edit_bumps_the_version_and_is_not_broadcast :
  (∀ client message clock st sessionId userId v,
     truthy_str (userSessions st !! client) = Some sessionId →
     truthy_str (socketUsers st !! client) = Some userId →
     m_sessionId message = JsStr sessionId →
     (20 ≤ c_now clock - default 0 (codeUpdateThrottle st !! userId))%Z →
     current_version sessionId st = Some v → (0 ≤ v)%Z →
     let r := handleCodeUpdate client message clock st in
     r.2 = [Uncaught "TypeError"]
     ∧ current_version sessionId r.1 = Some (v + 1)%Z)
  ∧ (∀ st tr sessionId, broadcast_versions sessionId (run st tr).2 = [])
  ∧ (let tr :=
       [ CodeUpdate "sockA" (edit sid1 "x") (tick 100000);
         CodeUpdate "sockB" (edit sid1 "y") (tick 100200) ] in
     current_version sid1 two_users = Some 0%Z
     ∧ current_version sid1 (run two_users tr).1 = Some 2%Z
     ∧ (run two_users tr).2.*1
       = [Uncaught "TypeError"; Uncaught "TypeError"]
     ∧ broadcast_versions sid1 (run two_users tr).2 = []).
Proof.
  split_and!.
  - intros client message clock st sessionId userId v Hs Hu Hm Hthr Hv Hpos r.
    destruct (handleCodeUpdate_accepted client message clock st sessionId
                userId v Hs Hu Hm Hthr Hv Hpos) as (H1 & H2 & _).
    by split.
  - intros st tr sessionId. apply run_no_version_broadcast.
  - split_and!; by vm_compute.
Qed.

(** Claim C2, evaluated on the code.  In every state the gateway can
    reach, nothing that an edit event makes it emit is a broadcast, and an
    edit that is past the checks and the throttle is answered by the
    [TypeError] alone: the ['code-update'] frame reaches no connection of
    the room.  An accepted language change is emitted as one
    ['language-changed'] frame whose receivers are exactly the connections
    in the room of the sender's session, among them the sender's own and
    every connection that is bound to the session. *)
Theorem edit_reaches_nobody_language_change_the_room
    (tr : list Action) (client : string) (message : WebSocketMessage)
    (clock : Clock) :
  let st := (run init tr).1 in
  (∀ e, e ∈ (handleCodeUpdate client message clock st).2 →
        is_broadcast e = false)
  ∧ (∀ sessionId userId v,
       userSessions st !! client = Some sessionId →
       socketUsers st !! client = Some userId →
       m_sessionId message = JsStr sessionId →
       (20 ≤ c_now clock - default 0 (codeUpdateThrottle st !! userId))%Z →
       current_version sessionId st = Some v → (0 ≤ v)%Z →
       (handleCodeUpdate client message clock st).2 = [Uncaught "TypeError"])
  ∧ (∀ sessionId userId language sd,
       userSessions st !! client = Some sessionId →
       socketUsers st !! client = Some userId →
       m_sessionId message = JsStr sessionId →
       Language_includes (m_payload message) = Some language →
       (5000 ≤ c_now clock
               - default 0 (languageChangeThrottle st !! userId))%Z →
       getSessionData sessionId (sessions st) = Some sd →
       let r := handleLanguageChange client message clock st in
       let frame :=
         ServerToEmit sessionId "language-changed"
           (Envelope "language-changed" (JsStr sessionId) userId
              (PLanguage language) (c_stamp clock)) in
       r.2 = [frame]
       ∧ recipients (rooms r.1) frame = room_members (rooms st) sessionId
       ∧ client ∈ recipients (rooms r.1) frame
       ∧ ∀ c, userSessions st !! c = Some sessionId →
              c ∈ recipients (rooms r.1) frame).
Proof.
  intros st.
  assert (Hinv : bound_in_room st) by apply run_bound, init_bound.
  split_and!.
  - intros e He.
    pose proof (handleCodeUpdate_no_broadcast client message clock st) as Hall.
    rewrite Forall_forall in Hall. by apply Hall.
  - intros sessionId userId v Hs Hu Hm Hthr Hv Hpos.
    pose proof (Hinv client) as Hc. rewrite Hs, Hu in Hc.
    destruct Hc as (Hsid & Huid & _).
    apply (handleCodeUpdate_accepted client message clock st sessionId
             userId v); try done.
    + by rewrite Hs, truthy_str_nonempty.
    + by rewrite Hu, truthy_str_nonempty.
  - intros sessionId userId language sd Hs Hu Hm Hok Hthr Hsd r frame.
    pose proof (Hinv client) as Hc. rewrite Hs, Hu in Hc.
    destruct Hc as (Hsid & Huid & Hin).
    assert (Hr : r.2 = [frame] ∧ rooms r.1 = rooms st).
    { subst r frame. unfold handleLanguageChange.
      rewrite Hs, Hu, !truthy_str_nonempty by done.
      rewrite Hm, strict_neq_str_same, Hok.
      rewrite bool_decide_eq_false_2 by lia. simpl sessions.
      unfold updateSessionLanguage. unfold getSessionData in Hsd.
      by rewrite Hsd. }
    destruct Hr as [Hout Hrooms]. rewrite Hrooms.
    split_and!; [done | done | done |].
    intros c Hcs. simpl. specialize (Hinv c). rewrite Hcs in Hinv.
    destruct (socketUsers st !! c); [|done]. by destruct Hinv as (_ & _ & ?).
Qed.
End BroadcastGroup.

(** ** The throttles on edits and on language changes *)
Section Throttles.
Import Js SessionsService Gateway Traces MoreTraces Samples.








End Throttles.

(** ** The checks at work on a session with two participants *)
Section GatewayExamples.
Import Js SessionsService Gateway Traces MoreTraces Samples.

(** A handshake without [userName], on a gateway that has a session and
    two participants. *)
Lemma handleConnection_rejects_without_trace_witness :
  handleConnection "sockC"
    {| q_sessionId := Some sid1; q_userId := Some "carol";
       q_userName := None |} 4000 two_users
  = (two_users, [ClientDisconnect "sockC"])
  ∧ handleConnection "sockC"
      {| q_sessionId := Some sid2; q_userId := Some "carol";
         q_userName := Some "Carol" |} 4000 two_users
    = (two_users, [ClientDisconnect "sockC"]).
Proof.
  split.
  - apply (handleConnection_rejects_without_trace "sockC"
             {| q_sessionId := Some sid1; q_userId := Some "carol";
                q_userName := None |} 4000 two_users).
    right. right. left. reflexivity.
  - apply (handleConnection_rejects_without_trace "sockC"
             {| q_sessionId := Some sid2; q_userId := Some "carol";
                q_userName := Some "Carol" |} 4000 two_users).
    right. right. right. exists sid2. split; [reflexivity | by vm_compute].
Defined.

(** The first participant sends an edit and a cursor event that name another
    session. *)
Lemma session_mismatch_is_INVALID_SESSION_witness :
  handleCodeUpdate "sockA" (edit sid2 "x") (tick 5000) two_users
  = (two_users,
     [ ClientEmit "sockA" "error"
         (Envelope "error" (JsStr sid1) "alice"
            (PError "INVALID_SESSION" "Session ID mismatch") 5000) ])
  ∧ handleCursorUpdate "sockA" (edit sid2 "x") (tick 5000) two_users
    = (two_users, []).
Proof.
  apply (session_mismatch_is_INVALID_SESSION
           "sockA" (edit sid2 "x") (tick 5000) two_users sid1 "alice").
  - by vm_compute.
  - by vm_compute.
  - intros H. discriminate H.
Defined.

(** The same edit, read against the claim as stated: the session ids
    differ, the connection is bound, and the frame the sender gets is not
    [USER_NOT_IN_SESSION]. *)
Lemma session_mismatch_is_not_USER_NOT_IN_SESSION :
  userSessions two_users !! "sockA" = Some sid1
  ∧ m_sessionId (edit sid2 "x") ≠ JsStr sid1
  ∧ sends_error
      (handleCodeUpdate "sockA" (edit sid2 "x") (tick 5000) two_users).2
      "sockA" "USER_NOT_IN_SESSION" = false
  ∧ sends_error
      (handleCodeUpdate "sockA" (edit sid2 "x") (tick 5000) two_users).2
      "sockA" "INVALID_SESSION" = true.
Proof.
  split_and!; [by vm_compute | intros H; discriminate H
              | by vm_compute | by vm_compute].
Qed.





(** An edit and a language change of the first participant, and who gets
    what. *)
Lemma edit_reaches_nobody_language_change_the_room_witness :
  (handleCodeUpdate "sockA" (edit sid1 "x") (tick 5000) two_users).2
  = [Uncaught "TypeError"]
  ∧ (let frame :=
       ServerToEmit sid1 "language-changed"
         (Envelope "language-changed" (JsStr sid1) "alice"
            (PLanguage PYTHON) 9000) in
     (handleLanguageChange "sockA" (language_change sid1 "python")
        (tick 9000) two_users).2 = [frame]
     ∧ recipients (rooms two_users) frame = {["sockA"; "sockB"]}).
Proof.
  destruct (edit_reaches_nobody_language_change_the_room
              [ HttpCreateSession sid1 JAVASCRIPT 1000;
                Connect "sockA" (handshake "alice" "Alice") 2000;
                Connect "sockB" (handshake "bob" "Bob") 3000 ]
              "sockA" (edit sid1 "x") (tick 5000)) as (_ & Hedit & _).
  destruct (edit_reaches_nobody_language_change_the_room
              [ HttpCreateSession sid1 JAVASCRIPT 1000;
                Connect "sockA" (handshake "alice" "Alice") 2000;
                Connect "sockB" (handshake "bob" "Bob") 3000 ]
              "sockA" (language_change sid1 "python") (tick 9000))
    as (_ & _ & Hlang).
  fold two_users in Hedit, Hlang. split.
  - apply (Hedit sid1 "alice" 0%Z); by vm_compute.
  - intros frame.
    destruct (getSessionData sid1 (sessions two_users)) as [sd|] eqn:Hsd;
      [|by vm_compute in Hsd].
    destruct (Hlang sid1 "alice" PYTHON sd) as (Hout & _ & _ & _);
      [by vm_compute..|].
    split; [exact Hout | by vm_compute].
Defined.
End GatewayExamples.

(** ** The version counter *)
Section CodeVersions.
Import Js SessionsService Gateway Traces Samples.

Lemma version_in_set sessionId sid sd sd' (r : Registry) :
  Map_get sid r = Some sd → sd_codeVersion sd' = sd_codeVersion sd →
  version_in sessionId (Map_set sid sd' r) = version_in sessionId r.
Proof.
  intros Hget Hv. unfold version_in.
  destruct (decide (sid = sessionId)) as [->|Hne].
  - rewrite Map_get_set_eq, Hget. simpl. by rewrite Hv.
  - by rewrite Map_get_set_ne.
Qed.

Lemma version_in_updateUserLastSeen sessionId sid uid now r :
  version_in sessionId (updateUserLastSeen sid uid now r)
  = version_in sessionId r.
Proof.
  unfold updateUserLastSeen.
  destruct (Map_get sid r) as [sd|] eqn:Hget; [|done].
  destruct (Map_get uid (sd_users sd)); [|done].
  by apply (version_in_set _ _ sd).
Qed.

End CodeVersions.

(** ** The client's connection hook *)
Section ClientHook.
Import UseWebSocket.

Lemma handle_no_call (h : Hook) (e : Event) :
  (handle h e).2 = []
  ∧ reconnectTimeoutRef (handle h e).1 = reconnectTimeoutRef h.
Proof. by destruct e. Qed.

(** Claim C9, evaluated on the code.  Whatever the socket reports
    (['connect'], ['disconnect'] with any reason, ['connect_error']), the
    hook makes no call at all: it opens no connection and sets no timer, and
    [reconnectTimeoutRef] keeps its value.  After an unexpected closure of a
    connected socket no reconnect attempt is scheduled, where the documented
    back-off asks for one after [RECONNECTION_DELAY] = 1000 ms.  Only the
    reset of the attempt counter on ['connect'] is there. *)
Theorem socket_events_schedule_no_reconnect (h : Hook) (es : list Event) :
  (handle_all h es).2 = []
  ∧ reconnectTimeoutRef (handle_all h es).1 = reconnectTimeoutRef h
  ∧ reconnectAttemptsRef (on_connect h).1 = 0
  ∧ (let opts :=
       {| o_sessionId := "550e8400-e29b-41d4-a716-446655440000";
          o_userId := "alice"; o_userName := "Alice" |} in
     let connected := (on_connect (connect opts initial).1).1 in
     isConnected connected = true
     ∧ on_disconnect "transport close" connected
       = ({| isConnected := false; connectionError := None;
             socketRef := Some false; reconnectAttemptsRef := 0;
             reconnectTimeoutRef := None; connectedToRef := None |}, []))
  ∧ backoff_delay 0 = 1000%Z
  ∧ RECONNECTION_ATTEMPTS = 5.
Proof.
  assert (Hcalls : ∀ es h, (handle_all h es).2 = []
      ∧ reconnectTimeoutRef (handle_all h es).1 = reconnectTimeoutRef h).
  { clear. induction es as [|e es IH]; intros h; simpl; [done|].
    destruct (handle_no_call h e) as [Hc Ht].
    destruct (handle h e) as [h1 c1]. simpl in Hc, Ht. subst c1.
    destruct (IH h1) as [Hc' Ht']. destruct (handle_all h1 es) as [h2 c2].
    simpl in *. split; congruence. }
  destruct (Hcalls es h) as [Hc Ht].
  split; [exact Hc|]. split; [exact Ht|]. split; [reflexivity|].
  split; [split; reflexivity|]. split; reflexivity.
Qed.
End ClientHook.

(* ===================================================================== *)
(** * Part III: further properties of the code                            *)
(* ===================================================================== *)

(** ** More on the insertion-ordered map *)
Section MoreJsMapFacts.
Context {V : Type}.
Implicit Types (m : list (string * V)) (k : string) (v : V).

Lemma Map_size_set k v m :
  Map_size (Map_set k v m)
  = if Map_has k m then Map_size m else S (Map_size m).
Proof.
  unfold Map_size, Map_has. induction m as [|[k' v'] m IH]; simpl; [done|].
  destruct (decide (k = k')); simpl; [done|].
  rewrite IH. by destruct (Map_get k m).
Qed.

Lemma Map_set_set k v v' m : Map_set k v (Map_set k v' m) = Map_set k v m.
Proof.
  induction m as [|[k0 v0] m IH]; simpl.
  - by rewrite decide_True.
  - destruct (decide (k = k0)) as [->|Hne]; simpl.
    + by rewrite decide_True.
    + rewrite decide_False by done. by rewrite IH.
Qed.

Lemma Map_set_id k v m : Map_get k m = Some v → Map_set k v m = m.
Proof.
  induction m as [|[k0 v0] m IH]; simpl; [done|].
  destruct (decide (k = k0)) as [->|Hne].
  - by intros [= ->].
  - intros H. by rewrite IH.
Qed.

Lemma Map_delete_absent k m : Map_get k m = None → Map_delete k m = m.
Proof.
  induction m as [|[k0 v0] m IH]; simpl; [done|].
  destruct (decide (k = k0)); [done|]. intros H. by rewrite IH.
Qed.

Lemma Map_delete_set_fresh k v m :
  Map_get k m = None → Map_delete k (Map_set k v m) = m.
Proof.
  induction m as [|[k0 v0] m IH]; simpl.
  - by rewrite decide_True.
  - destruct (decide (k = k0)) as [->|Hne]; [done|].
    intros H. simpl. rewrite decide_False by done. by rewrite IH.
Qed.

Lemma elem_of_Map_delete (e : string * V) k m :
  e ∈ Map_delete k m ↔ e ∈ m ∧ e.1 ≠ k.
Proof.
  induction m as [|[k0 v0] m IH]; simpl.
  - split; [intros H; by apply elem_of_nil in H | intros [H _]; done].
  - destruct (decide (k = k0)) as [->|Hne].
    + rewrite IH, elem_of_cons. split; [naive_solver|].
      intros [[->|?] ?]; [done | done].
    + rewrite !elem_of_cons, IH. split; [|naive_solver].
      intros [->|[? ?]]; [|by auto]. split; [by left | simpl; congruence].
Qed.

Lemma Map_delete_sublist k m : Map_delete k m `sublist_of` m.
Proof.
  induction m as [|[k0 v0] m IH]; simpl; [done|].
  destruct (decide (k = k0)); [by apply sublist_cons | by apply sublist_skip].
Qed.

Lemma Map_get_values k v m : Map_get k m = Some v → v ∈ Map_values m.
Proof.
  intros H%Map_get_Some_elem. unfold Map_values.
  apply list_elem_of_fmap. by exists (k, v).
Qed.
End MoreJsMapFacts.

(** ** The registry: creation, lookup, deletion, participants *)
Section RegistryRoundTrips.
Import SessionsService RegistryOps.

(** Property X1.  [createSession] stores a session that [getSession]
    returns at once: the id and language asked for, the creation time, no
    participant, an empty participant list; the session is also what the call
    answers.  Every other id is looked up as before, and the registry grows
    by one entry unless the id was already there. *)
Theorem createSession_then_getSession
    (sessionId : string) (now : Z) (language : Language) (r : Registry) :
  let created := createSession sessionId now language r in
  getSession sessionId created.1
  = Some {| s_id := sessionId; s_createdAt := now; s_language := language;
            s_participantCount := 0 |}
  ∧ getSession sessionId created.1 = Some created.2
  ∧ getSessionUsers sessionId created.1 = []
  ∧ (∀ other, other ≠ sessionId →
       getSessionData other created.1 = getSessionData other r)
  ∧ (listSessions 0 0 created.1).2
    = if Map_has sessionId r then (listSessions 0 0 r).2
      else S (listSessions 0 0 r).2.
Proof.
  simpl. unfold getSession, getSessionUsers, getSessionData.
  rewrite Map_get_set_eq. split_and!; try done.
  - intros other Hne. by apply Map_get_set_ne.
  - apply Map_size_set.
Qed.

(** Property X2.  [deleteSession] answers [true] exactly when the session
    was there; afterwards the session is absent, every other session is
    looked up as before, and a second deletion answers [false] and changes
    nothing.  Through the controller, a deletion that is answered
    [NotFound] (malformed id or unknown session) leaves the registry as it
    was, and it is answered [Ok] exactly for a well-formed id of a stored
    session. *)
Theorem deleteSession_removes_once (sessionId : string) (r : Registry) :
  let deleted := deleteSession sessionId r in
  (deleted.2 = true ↔ is_Some (getSession sessionId r))
  ∧ getSession sessionId deleted.1 = None
  ∧ (∀ other, other ≠ sessionId →
       getSessionData other deleted.1 = getSessionData other r)
  ∧ deleteSession sessionId deleted.1 = (deleted.1, false)
  ∧ ((SessionsController.deleteSession sessionId r).2 = SessionsController.Ok tt
     ↔ SessionsController.isValidUUID sessionId = true
       ∧ is_Some (getSession sessionId r))
  ∧ (∀ message,
       (SessionsController.deleteSession sessionId r).2
       = SessionsController.NotFound message →
       (SessionsController.deleteSession sessionId r).1 = r).
Proof.
  simpl. unfold getSession, getSessionData, deleteSession, Map_has.
  unfold SessionsController.deleteSession, deleteSession, Map_has.
  rewrite Map_get_delete_eq. split_and!; try done.
  - destruct (Map_get sessionId r); simpl.
    + split; [intros _; by eexists | done].
    + split; [done | by intros [? ?]].
  - intros other Hne. by apply Map_get_delete_ne.
  - by rewrite Map_delete_absent by apply Map_get_delete_eq.
  - destruct (SessionsController.isValidUUID sessionId); simpl.
    + destruct (Map_get sessionId r); simpl.
      * split; [intros _; split; [done | by eexists] | done].
      * split; [done | by intros [_ [? ?]]].
    + split; [done | by intros [? _]].
  - intros message.
    destruct (SessionsController.isValidUUID sessionId); simpl; [|done].
    destruct (Map_get sessionId r) eqn:Hget; simpl; [done|].
    intros _. by apply Map_delete_absent.
Qed.

(** What [addUserToSession] answers and files, for the gateway's use. *)
Lemma addUserToSession_files_presence_aux
    (sessionId userId userName socketId : string) (now : Z) (r : Registry)
    (sd : SessionData) :
  getSessionData sessionId r = Some sd →
  let added := addUserToSession sessionId userId userName socketId now r in
  let user :=
    {| u_id := userId; u_name := userName;
       u_color := generateUserColor userId; u_lastSeen := now;
       u_socketId := socketId |} in
  added.2 = Some user ∧ user ∈ getSessionUsers sessionId added.1.
Proof.
  unfold getSessionData, getSessionUsers, addUserToSession. intros Hget.
  rewrite Hget. simpl. rewrite Map_get_set_eq. simpl. split; [done|].
  eapply Map_get_values. apply Map_get_set_eq.
Qed.

(** Property X3.  On a stored session [addUserToSession] answers the
    presence record it files under the user id: the id, name and socket given,
    the colour derived from the id, the time of the call.  The record is then
    in the session's participant list, the count is the size of the list (one
    more than before for a new user id, the same for one that was there), and
    nothing else moves: the other participants, the counter, the language and
    the other sessions are as before. *)
Theorem addUserToSession_files_presence
    (sessionId userId userName socketId : string) (now : Z) (r : Registry)
    (sd : SessionData) :
  getSessionData sessionId r = Some sd →
  let added := addUserToSession sessionId userId userName socketId now r in
  let user :=
    {| u_id := userId; u_name := userName;
       u_color := generateUserColor userId; u_lastSeen := now;
       u_socketId := socketId |} in
  added.2 = Some user
  ∧ user ∈ getSessionUsers sessionId added.1
  ∧ (∃ sd',
       getSessionData sessionId added.1 = Some sd'
       ∧ Map_get userId (sd_users sd') = Some user
       ∧ sd_participantCount sd' = Map_size (sd_users sd')
       ∧ Map_size (sd_users sd')
         = (if Map_has userId (sd_users sd) then Map_size (sd_users sd)
            else S (Map_size (sd_users sd)))
       ∧ (∀ other, other ≠ userId →
            Map_get other (sd_users sd') = Map_get other (sd_users sd))
       ∧ sd_codeVersion sd' = sd_codeVersion sd
       ∧ sd_language sd' = sd_language sd
       ∧ sd_createdAt sd' = sd_createdAt sd)
  ∧ (∀ other, other ≠ sessionId →
       getSessionData other added.1 = getSessionData other r).
Proof.
  unfold getSessionData, getSessionUsers, addUserToSession. intros Hget.
  rewrite Hget. simpl. rewrite Map_get_set_eq. simpl. split_and!.
  - done.
  - eapply Map_get_values. apply Map_get_set_eq.
  - eexists. split; [done|]. simpl. rewrite Map_get_set_eq.
    split_and!; try done.
    + apply Map_size_set.
    + intros other Hne. by apply Map_get_set_ne.
  - intros other Hne. by apply Map_get_set_ne.
Qed.

(** Property X3 on a registry with one empty session. *)
Lemma addUserToSession_files_presence_witness :
  let r := (createSession "s" 0 PYTHON []).1 in
  (addUserToSession "s" "alice" "Alice" "sockA" 5 r).2
  = Some {| u_id := "alice"; u_name := "Alice";
            u_color := generateUserColor "alice"; u_lastSeen := 5;
            u_socketId := "sockA" |}.
Proof.
  intros r.
  destruct (addUserToSession_files_presence "s" "alice" "Alice" "sockA" 5 r
              {| sd_id := "s"; sd_createdAt := 0; sd_language := PYTHON;
                 sd_participantCount := 0; sd_users := [];
                 sd_codeVersion := 0 |} eq_refl) as [H _].
  exact H.
Defined.

(** Property X4.  A participant who joins and leaves again leaves no
    trace: when the session's count agrees with its participant list and the
    user id is not in it, [removeUserFromSession] after [addUserToSession]
    answers [true] and gives back the registry as it was.  Removing a user who
    is not there, or from a session that is not there, answers [false] and
    changes nothing. *)
Theorem join_then_leave_restores_registry
    (sessionId userId userName socketId : string) (now : Z) (r : Registry)
    (sd : SessionData) :
  getSessionData sessionId r = Some sd →
  sd_participantCount sd = Map_size (sd_users sd) →
  Map_get userId (sd_users sd) = None →
  removeUserFromSession sessionId userId
    (addUserToSession sessionId userId userName socketId now r).1
  = (r, true)
  ∧ removeUserFromSession sessionId userId r = (r, false).
Proof.
  unfold getSessionData. intros Hget Hpc Hfresh. split.
  - unfold addUserToSession, removeUserFromSession. rewrite Hget. simpl.
    rewrite Map_get_set_eq. simpl. unfold Map_has.
    rewrite Map_get_set_eq. rewrite Map_set_set.
    rewrite Map_delete_set_fresh by done. f_equal.
    apply Map_set_id. rewrite Hget. f_equal.
    destruct sd; simpl in *. by rewrite Hpc.
  - unfold removeUserFromSession, Map_has. by rewrite Hget, Hfresh.
Qed.

Lemma join_then_leave_restores_registry_witness :
  let r := (createSession "s" 0 PYTHON []).1 in
  removeUserFromSession "s" "alice"
    (addUserToSession "s" "alice" "Alice" "sockA" 5 r).1
  = (r, true).
Proof.
  intros r.
  destruct (join_then_leave_restores_registry "s" "alice" "Alice" "sockA" 5 r
              {| sd_id := "s"; sd_createdAt := 0; sd_language := PYTHON;
                 sd_participantCount := 0; sd_users := [];
                 sd_codeVersion := 0 |} eq_refl eq_refl eq_refl) as [H _].
  exact H.
Defined.
End RegistryRoundTrips.

(** ** Listing, the controller's clamps and the id format *)
Section ListingAndIds.
Import SessionsService RegistryOps.

Lemma take_add_drop {A} (l : list A) (n m : nat) :
  take (n + m) l = (take n l ++ take m (drop n l))%list.
Proof.
  revert l. induction n as [|n IH]; intros l; simpl; [done|].
  destruct l as [|x l]; simpl.
  - by rewrite take_nil.
  - by rewrite IH.
Qed.

(** Property X5.  A page of [listSessions] holds at most [limit] sessions,
    each one the response of a stored session; the total is the size of the
    registry; a page that starts at or past the total is empty; and
    consecutive pages tile the listing: the page of [limit1] sessions at
    [offset] followed by the page of [limit2] at [offset + limit1] is the
    page of [limit1 + limit2] at [offset]. *)
Theorem listSessions_pages_tile
    (limit1 limit2 offset : nat) (r : Registry) :
  (length (listSessions limit1 offset r).1 ≤ limit1)%nat
  ∧ (listSessions limit1 offset r).2 = Map_size r
  ∧ ((Map_size r ≤ offset)%nat → (listSessions limit1 offset r).1 = [])
  ∧ ((listSessions limit1 offset r).1
       ++ (listSessions limit2 (offset + limit1) r).1)%list
    = (listSessions (limit1 + limit2) offset r).1
  ∧ (listSessions (Map_size r) 0 r).1
    = toSessionResponse <$> Map_values r.
Proof.
  unfold listSessions. simpl. split_and!.
  - rewrite length_take. lia.
  - done.
  - intros Hge. rewrite drop_ge; [by rewrite take_nil|].
    unfold Map_values, Map_size in *. by rewrite !length_fmap.
  - rewrite take_add_drop, drop_drop. done.
  - rewrite drop_0. apply take_ge.
    unfold Map_values, Map_size. by rewrite !length_fmap.
Qed.

(** Property X6.  Whatever [limit] and [offset] the query carries, the
    route [GET /sessions] lists with a limit between 1 and 100 and an offset
    that is not negative, and so answers with at most 100 sessions; a limit
    that is missing or 0 stands for 20, a missing offset for 0, and the total
    is the size of the registry. *)
Theorem controller_listSessions_is_clamped
    (limit offset : option Z) (r : Registry) :
  let page := SessionsController.listSessions limit offset r in
  (1 ≤ SessionsController.p_limit page ≤ 100)%Z
  ∧ (0 ≤ SessionsController.p_offset page)%Z
  ∧ (Z.of_nat (length (SessionsController.p_sessions page))
     ≤ SessionsController.p_limit page)%Z
  ∧ (length (SessionsController.p_sessions page) ≤ 100)%nat
  ∧ SessionsController.p_total page = Map_size r
  ∧ (limit = None ∨ limit = Some 0%Z →
     SessionsController.p_limit page = 20%Z)
  ∧ (∀ l, limit = Some l → (1 ≤ l ≤ 100)%Z →
     SessionsController.p_limit page = l).
Proof.
  unfold SessionsController.listSessions, listSessions. simpl.
  assert (Hl : (1 ≤ SessionsController.limitNum limit ≤ 100)%Z).
  { unfold SessionsController.limitNum. destruct limit as [l|]; [|lia].
    destruct (Z.eqb_spec l 0); lia. }
  assert (Ho : (0 ≤ SessionsController.offsetNum offset)%Z).
  { unfold SessionsController.offsetNum. destruct offset as [o|]; [|lia].
    destruct (Z.eqb_spec o 0); lia. }
  split_and!; try done.
  - lia.
  - lia.
  - rewrite length_take. lia.
  - rewrite length_take. lia.
  - intros [->| ->]; reflexivity.
  - intros l -> Hr. unfold SessionsController.limitNum.
    destruct (Z.eqb_spec l 0); lia.
Qed.

Lemma chars_length p n s rest :
  SessionsController.chars p n s = Some rest →
  String.length s = n + String.length rest.
Proof.
  revert s. induction n as [|n IH]; intros s; simpl.
  - by intros [= ->].
  - destruct s as [|c s]; [done|]. destruct (p c); [|done].
    intros H%IH. simpl. by rewrite H.
Qed.

Lemma chars_get p n s rest i :
  SessionsController.chars p n s = Some rest → i < n →
  ∃ c, String.get i s = Some c ∧ p c = true.
Proof.
  revert s i. induction n as [|n IH]; intros s i; simpl; [lia|].
  destruct s as [|c s]; [done|]. destruct (p c) eqn:Hp; [|done].
  intros H Hi. destruct i as [|i]; simpl.
  - by exists c.
  - apply (IH s i H). lia.
Qed.

Lemma chars_get_rest p n s rest i :
  SessionsController.chars p n s = Some rest →
  String.get (n + i) s = String.get i rest.
Proof.
  revert s. induction n as [|n IH]; intros s; simpl.
  - by intros [= ->].
  - destruct s as [|c s]; [done|]. destruct (p c); [|done]. apply IH.
Qed.

(** Property X7.  The ids that [isValidUUID] accepts are 36 characters
    long, with hyphens at positions 8, 13, 18 and 23, a version digit from 1
    to 5 at position 14 and one of 8, 9, a, b (in either case) at position
    19; so the routes that take a session id answer [NotFound] for any id of
    another shape, whatever the registry holds. *)
Theorem isValidUUID_shape (uuid : string) :
  SessionsController.isValidUUID uuid = true →
  String.length uuid = 36
  ∧ (∀ i, i ∈ [8; 13; 18; 23] →
       ∃ c, String.get i uuid = Some c ∧ SessionsController.is_dash c = true)
  ∧ (∃ c, String.get 14 uuid = Some c
          ∧ SessionsController.is_version c = true)
  ∧ (∃ c, String.get 19 uuid = Some c
          ∧ SessionsController.is_variant c = true).
Proof.
  unfold SessionsController.isValidUUID, SessionsController.uuid_pattern.
  cbn [SessionsController.match_pattern].
  destruct (SessionsController.chars SessionsController.is_hex 8 uuid) as [r1|] eqn:H1; [|done].
  destruct (SessionsController.chars SessionsController.is_dash 1 r1) as [r2|] eqn:H2; [|done].
  destruct (SessionsController.chars SessionsController.is_hex 4 r2) as [r3|] eqn:H3; [|done].
  destruct (SessionsController.chars SessionsController.is_dash 1 r3) as [r4|] eqn:H4; [|done].
  destruct (SessionsController.chars SessionsController.is_version 1 r4) as [r5|] eqn:H5; [|done].
  destruct (SessionsController.chars SessionsController.is_hex 3 r5) as [r6|] eqn:H6; [|done].
  destruct (SessionsController.chars SessionsController.is_dash 1 r6) as [r7|] eqn:H7; [|done].
  destruct (SessionsController.chars SessionsController.is_variant 1 r7) as [r8|] eqn:H8; [|done].
  destruct (SessionsController.chars SessionsController.is_hex 3 r8) as [r9|] eqn:H9; [|done].
  destruct (SessionsController.chars SessionsController.is_dash 1 r9) as [r10|] eqn:H10; [|done].
  destruct (SessionsController.chars SessionsController.is_hex 12 r10) as [r11|] eqn:H11; [|done].
  destruct r11; [|done]. intros _.
  assert (G2 : ∀ i, String.get (8 + i) uuid = String.get i r1)
    by (intros; by eapply chars_get_rest).
  assert (G3 : ∀ i, String.get (9 + i) uuid = String.get i r2).
  { intros i. transitivity (String.get (1 + i) r1);
      [exact (G2 (1 + i)) | by eapply chars_get_rest]. }
  assert (G4 : ∀ i, String.get (13 + i) uuid = String.get i r3).
  { intros i. transitivity (String.get (4 + i) r2);
      [exact (G3 (4 + i)) | by eapply chars_get_rest]. }
  assert (G5 : ∀ i, String.get (14 + i) uuid = String.get i r4).
  { intros i. transitivity (String.get (1 + i) r3);
      [exact (G4 (1 + i)) | by eapply chars_get_rest]. }
  assert (G6 : ∀ i, String.get (15 + i) uuid = String.get i r5).
  { intros i. transitivity (String.get (1 + i) r4);
      [exact (G5 (1 + i)) | by eapply chars_get_rest]. }
  assert (G7 : ∀ i, String.get (18 + i) uuid = String.get i r6).
  { intros i. transitivity (String.get (3 + i) r5);
      [exact (G6 (3 + i)) | by eapply chars_get_rest]. }
  assert (G8 : ∀ i, String.get (19 + i) uuid = String.get i r7).
  { intros i. transitivity (String.get (1 + i) r6);
      [exact (G7 (1 + i)) | by eapply chars_get_rest]. }
  assert (G9 : ∀ i, String.get (20 + i) uuid = String.get i r8).
  { intros i. transitivity (String.get (1 + i) r7);
      [exact (G8 (1 + i)) | by eapply chars_get_rest]. }
  assert (G10 : ∀ i, String.get (23 + i) uuid = String.get i r9).
  { intros i. transitivity (String.get (3 + i) r8);
      [exact (G9 (3 + i)) | by eapply chars_get_rest]. }
  split_and!.
  - apply chars_length in H1, H2, H3, H4, H5, H6, H7, H8, H9, H10, H11.
    simpl in H11. lia.
  - intros i Hi. repeat (apply elem_of_cons in Hi as [->|Hi]).
    + rewrite (G2 0 : String.get 8 uuid = _). eapply chars_get; [exact H2 | lia].
    + rewrite (G4 0 : String.get 13 uuid = _). eapply chars_get; [exact H4 | lia].
    + rewrite (G7 0 : String.get 18 uuid = _). eapply chars_get; [exact H7 | lia].
    + rewrite (G10 0 : String.get 23 uuid = _). eapply chars_get; [exact H10 | lia].
    + by apply elem_of_nil in Hi.
  - rewrite (G5 0 : String.get 14 uuid = _). eapply chars_get; [exact H5 | lia].
  - rewrite (G8 0 : String.get 19 uuid = _). eapply chars_get; [exact H8 | lia].
Qed.

Lemma isValidUUID_shape_witness :
  String.length Samples.sid1 = 36.
Proof.
  destruct (isValidUUID_shape Samples.sid1) as [H _]; [by vm_compute|].
  exact H.
Defined.

(** What the sweep leaves of the registry it walks. *)
Lemma elem_of_sweep now (e : string * SessionData) (l acc : Registry) :
  e ∈ fold_left
        (fun acc entry =>
           if inactive now entry.2 then Map_delete entry.1 acc else acc)
        l acc
  ↔ e ∈ acc ∧ ∀ e', e' ∈ l → inactive now e'.2 = true → e.1 ≠ e'.1.
Proof.
  revert acc. induction l as [|[k sd] l IH]; intros acc; simpl.
  - split; [intros H; split; [done|] | by intros [? _]].
    intros e' He'. by apply elem_of_nil in He'.
  - rewrite IH. destruct (inactive now sd) eqn:Hin.
    + rewrite elem_of_Map_delete. split.
      * intros [[He Hne] Hall]. split; [done|].
        intros e' [->|He']%elem_of_cons; [done | by apply Hall].
      * intros [He Hall]. split_and!; [done | |].
        -- apply (Hall (k, sd)); [left | done].
        -- intros e' He'. apply Hall. by right.
    + split.
      * intros [He Hall]. split; [done|].
        intros e' [->|He']%elem_of_cons; [simpl; congruence | by apply Hall].
      * intros [He Hall]. split; [done|].
        intros e' He'. apply Hall. by right.
Qed.

Lemma sweep_nothing_inactive now (l acc : Registry) :
  (∀ e, e ∈ l → inactive now e.2 = false) →
  fold_left
    (fun acc entry =>
       if inactive now entry.2 then Map_delete entry.1 acc else acc)
    l acc
  = acc.
Proof.
  revert acc. induction l as [|[k sd] l IH]; intros acc Hall; simpl; [done|].
  pose proof (Hall (k, sd) ltac:(left)) as Hk. simpl in Hk. rewrite Hk.
  apply IH. intros e He. apply Hall. by right.
Qed.

Lemma sweep_sublist now (l acc : Registry) :
  fold_left
    (fun acc entry =>
       if inactive now entry.2 then Map_delete entry.1 acc else acc)
    l acc
  `sublist_of` acc.
Proof.
  revert acc. induction l as [|[k sd] l IH]; intros acc; simpl; [done|].
  destruct (inactive now sd); [|apply IH].
  etrans; [apply IH | apply Map_delete_sublist].
Qed.

(** Property X8.  After [cleanupInactiveSessions] no session is left that
    is older than the timeout and without participants; the sessions that
    remain are sessions that were there, in their order; and a second sweep
    at the same time changes nothing. *)
Theorem cleanup_leaves_no_inactive_session (now : Z) (r : Registry) :
  let r' := cleanupInactiveSessions now r in
  (∀ sessionId sd,
     (sessionId, sd) ∈ r' →
     ¬ ((now - sd_createdAt sd > SESSION_TIMEOUT)%Z
        ∧ Map_size (sd_users sd) = 0))
  ∧ r' `sublist_of` r
  ∧ cleanupInactiveSessions now r' = r'.
Proof.
  intros r'. subst r'. unfold cleanupInactiveSessions, Map_entries.
  assert (Hclean : ∀ e,
    e ∈ fold_left
          (fun acc entry =>
             if inactive now entry.2 then Map_delete entry.1 acc else acc)
          r r → inactive now e.2 = false).
  { intros e [He Hall]%elem_of_sweep.
    destruct (inactive now e.2) eqn:Hin; [|done].
    by destruct (Hall e He Hin). }
  split_and!.
  - intros sessionId sd Hin [Hold Hempty].
    apply Hclean in Hin. unfold inactive in Hin. simpl in Hin.
    rewrite !bool_decide_eq_true_2 in Hin by done. done.
  - apply sweep_sublist.
  - by apply sweep_nothing_inactive.
Qed.

(** Property X9.  The hue that [generateUserColor] derives from a user id
    is a whole number of degrees from 0 to 359, whatever the id; the empty id
    has hue 0. *)
Theorem generateUserColor_hue_range (userId : string) :
  (0 ≤ generateUserColor userId < 360)%Z
  ∧ generateUserColor "" = 0%Z.
Proof.
  split; [|reflexivity]. unfold generateUserColor.
  pose proof (Z.rem_bound_abs (hash_loop userId 0) 360 ltac:(lia)).
  lia.
Qed.
End ListingAndIds.

(** ** The gateway: admission and closing *)
Section AdmissionAndClosing.
Import Js SessionsService Gateway Traces MoreTraces Samples.

(** Property X10.  A handshake with all three fields for a stored session
    is admitted: the connection is bound to the session and the user, sits in
    the session's room, and the user's presence record (with this connection
    as its socket) is in the participant list.  Exactly three frames go out,
    in this order: ['connected'] to the new connection alone, ['user-joined']
    to the room without it, and ['presence-update'] with the participant list
    as it is after the admission, to the whole room, the new connection
    included. *)
Theorem handleConnection_admits
    (client : string) (query : Handshake) (now : Z) (st : State)
    (sessionId userId userName : string) (sd : SessionData) :
  truthy_str (q_sessionId query) = Some sessionId →
  truthy_str (q_userId query) = Some userId →
  truthy_str (q_userName query) = Some userName →
  getSessionData sessionId (sessions st) = Some sd →
  let r := handleConnection client query now st in
  let user :=
    {| u_id := userId; u_name := userName;
       u_color := generateUserColor userId; u_lastSeen := now;
       u_socketId := client |} in
  let joined :=
    ClientToEmit client sessionId "user-joined"
      (Envelope "user-joined" (JsStr sessionId) userId
         (PUserJoined userId userName (generateUserColor userId)) now) in
  let presence :=
    ServerToEmit sessionId "presence-update"
      (Envelope "presence-update" (JsStr sessionId) "system"
         (PPresence
            ((fun u => (u_id u, u_name u, u_color u, u_lastSeen u))
               <$> getSessionUsers sessionId (sessions r.1)))
         now) in
  userSessions r.1 !! client = Some sessionId
  ∧ socketUsers r.1 !! client = Some userId
  ∧ client ∈ room_members (rooms r.1) sessionId
  ∧ user ∈ getSessionUsers sessionId (sessions r.1)
  ∧ r.2 = [ClientEmit client "connected" (Connected sessionId userId now);
           joined; presence]
  ∧ recipients (rooms r.1) joined
    = room_members (rooms st) sessionId ∖ {[client]}
  ∧ recipients (rooms r.1) presence
    = {[client]} ∪ room_members (rooms st) sessionId.
Proof.
  intros Hs Hu Hn Hsd r user joined presence.
  pose proof (addUserToSession_files_presence_aux
                sessionId userId userName client now (sessions st) sd Hsd)
    as (Hadd & Hin).
  assert (Hr : ∃ sessions',
    addUserToSession sessionId userId userName client now (sessions st)
    = (sessions', Some user)
    ∧ handleConnection client query now st
      = ({| sessions := sessions';
            userSessions := <[client := sessionId]> (userSessions st);
            socketUsers := <[client := userId]> (socketUsers st);
            cursorUpdateThrottle := cursorUpdateThrottle st;
            codeUpdateThrottle := codeUpdateThrottle st;
            languageChangeThrottle := languageChangeThrottle st;
            rooms := join client sessionId (rooms st) |},
         [ ClientEmit client "connected" (Connected sessionId userId now);
           joined;
           ServerToEmit sessionId "presence-update"
             (Envelope "presence-update" (JsStr sessionId) "system"
                (PPresence
                   ((fun u => (u_id u, u_name u, u_color u, u_lastSeen u))
                      <$> getSessionUsers sessionId sessions'))
                now) ])).
  { unfold handleConnection. rewrite Hs, Hu, Hn.
    unfold getSessionData in Hsd. unfold getSession. rewrite Hsd.
    destruct (addUserToSession sessionId userId userName client now
                (sessions st)) as [sessions' o] eqn:Hres.
    simpl in Hadd. subst o. by exists sessions'. }
  destruct Hr as (sessions' & Hres & Hr).
  rewrite Hres in Hin. simpl in Hin.
  subst presence r. rewrite Hr. simpl.
  rewrite !lookup_insert_eq, !room_members_join, !decide_True by done.
  split_and!; try done.
  - set_solver.
  - set_solver.
Qed.

(** A third participant is admitted to the session of the two. *)
Lemma handleConnection_admits_witness :
  (handleConnection "sockC" (handshake "carol" "Carol") 4000 two_users).2
  = [ ClientEmit "sockC" "connected" (Connected sid1 "carol" 4000);
      ClientToEmit "sockC" sid1 "user-joined"
        (Envelope "user-joined" (JsStr sid1) "carol"
           (PUserJoined "carol" "Carol" (generateUserColor "carol")) 4000);
      ServerToEmit sid1 "presence-update"
        (Envelope "presence-update" (JsStr sid1) "system"
           (PPresence
              ((fun u => (u_id u, u_name u, u_color u, u_lastSeen u))
                 <$> getSessionUsers sid1
                       (sessions
                          (handleConnection "sockC"
                             (handshake "carol" "Carol") 4000 two_users).1)))
           4000) ].
Proof.
  destruct (getSessionData sid1 (sessions two_users)) as [sd|] eqn:Hsd;
    [|by vm_compute in Hsd].
  destruct (handleConnection_admits "sockC" (handshake "carol" "Carol") 4000
              two_users sid1 "carol" "Carol" sd eq_refl eq_refl eq_refl Hsd)
    as (_ & _ & _ & _ & Hout & _).
  exact Hout.
Defined.

Lemma leave_all_idemp client rs :
  leave_all client (leave_all client rs) = leave_all client rs.
Proof.
  unfold leave_all. rewrite <- map_fmap_compose. apply map_fmap_ext.
  intros room members _. simpl. set_solver.
Qed.

Lemma removeUserFromSession_gone sessionId userId (r : Registry) sd' :
  getSessionData sessionId (removeUserFromSession sessionId userId r).1
  = Some sd' →
  Map_get userId (sd_users sd') = None.
Proof.
  unfold getSessionData, removeUserFromSession.
  destruct (Map_get sessionId r) as [sd|] eqn:Hget; simpl.
  - unfold Map_has.
    destruct (Map_get userId (sd_users sd)) eqn:Hu; simpl.
    + rewrite Map_get_set_eq. intros [= <-]. simpl.
      apply Map_get_delete_eq.
    + rewrite Hget. by intros [= <-].
  - by rewrite Hget.
Qed.

(** Property X11.  When a bound connection closes, everything kept for it
    is released: its two bindings, its place in the rooms, the three throttle
    entries of its user and the user's presence record.  Two frames go out:
    ['user-left'] to the room without the closing connection and
    ['presence-update'] with the participant list as it is afterwards.  A
    second report of the closure changes nothing and emits nothing. *)
Theorem disconnect_releases_everything
    (client : string) (now now' : Z) (st : State)
    (sessionId userId : string) :
  truthy_str (userSessions st !! client) = Some sessionId →
  truthy_str (socketUsers st !! client) = Some userId →
  let r := step st (Disconnect client now) in
  userSessions r.1 !! client = None
  ∧ socketUsers r.1 !! client = None
  ∧ (∀ room, client ∉ room_members (rooms r.1) room)
  ∧ cursorUpdateThrottle r.1 !! userId = None
  ∧ codeUpdateThrottle r.1 !! userId = None
  ∧ languageChangeThrottle r.1 !! userId = None
  ∧ (∀ sd', getSessionData sessionId (sessions r.1) = Some sd' →
            Map_get userId (sd_users sd') = None)
  ∧ r.2 = [ ClientToEmit client sessionId "user-left"
              (Envelope "user-left" (JsStr sessionId) userId
                 (PUserLeft "disconnect") now);
            ServerToEmit sessionId "presence-update"
              (Envelope "presence-update" (JsStr sessionId) "system"
                 (PPresence
                    ((fun u => (u_id u, u_name u, u_color u, u_lastSeen u))
                       <$> getSessionUsers sessionId (sessions r.1)))
                 now) ]
  ∧ step r.1 (Disconnect client now') = (r.1, []).
Proof.
  intros Hs Hu r. subst r. simpl. unfold handleDisconnect. simpl.
  rewrite Hs, Hu. simpl. rewrite !lookup_delete_eq.
  split_and!; try done.
  - intros room. rewrite room_members_leave_all. set_solver.
  - intros sd'. apply removeUserFromSession_gone.
  - by rewrite leave_all_idemp.
Qed.

Lemma disconnect_releases_everything_witness :
  (step two_users (Disconnect "sockB" 5000)).2
  = [ ClientToEmit "sockB" sid1 "user-left"
        (Envelope "user-left" (JsStr sid1) "bob"
           (PUserLeft "disconnect") 5000);
      ServerToEmit sid1 "presence-update"
        (Envelope "presence-update" (JsStr sid1) "system"
           (PPresence
              ((fun u => (u_id u, u_name u, u_color u, u_lastSeen u))
                 <$> getSessionUsers sid1
                       (sessions (step two_users (Disconnect "sockB" 5000)).1)))
           5000) ].
Proof.
  destruct (disconnect_releases_everything "sockB" 5000 6000 two_users
              sid1 "bob" eq_refl eq_refl)
    as (_ & _ & _ & _ & _ & _ & _ & Hout & _).
  exact Hout.
Defined.

(** Property X12.  Presence is kept per user id, bindings per connection:
    when a user has two connections in a session and one of them closes, the
    other stays bound and in the room and is among the receivers of the
    ['user-left'] frame, while the user's presence record is removed from the
    session. *)
Theorem closing_one_connection_drops_the_users_presence
    (client other : string) (now : Z) (st : State)
    (sessionId userId : string) :
  client ≠ other →
  truthy_str (userSessions st !! client) = Some sessionId →
  truthy_str (socketUsers st !! client) = Some userId →
  userSessions st !! other = Some sessionId →
  socketUsers st !! other = Some userId →
  other ∈ room_members (rooms st) sessionId →
  let r := step st (Disconnect client now) in
  userSessions r.1 !! other = Some sessionId
  ∧ socketUsers r.1 !! other = Some userId
  ∧ other ∈ room_members (rooms r.1) sessionId
  ∧ (∀ sd', getSessionData sessionId (sessions r.1) = Some sd' →
            Map_get userId (sd_users sd') = None)
  ∧ (∀ e, e ∈ r.2 → other ∈ recipients (rooms r.1) e).
Proof.
  intros Hne Hs Hu Hos Hou Hin r. subst r. simpl.
  unfold handleDisconnect. simpl. rewrite Hs, Hu. simpl.
  rewrite !lookup_delete_ne by done.
  assert (Hroom : other ∈ room_members (leave_all client (rooms st)) sessionId).
  { rewrite room_members_leave_all. set_solver. }
  split_and!; try done.
  - intros sd'. apply removeUserFromSession_gone.
  - intros e He. repeat (apply elem_of_cons in He as [->|He]); simpl.
    + set_solver.
    + done.
    + by apply elem_of_nil in He.
Qed.

Lemma closing_one_connection_drops_the_users_presence_witness :
  let st :=
    (run two_users [Connect "sockA2" (handshake "alice" "Alice") 4000]).1 in
  userSessions (step st (Disconnect "sockA2" 5000)).1 !! "sockA" = Some sid1
  ∧ presence_ids sid1 (step st (Disconnect "sockA2" 5000)).1 = ["bob"].
Proof.
  intros st.
  destruct (closing_one_connection_drops_the_users_presence
              "sockA2" "sockA" 5000 st sid1 "alice")
    as (H & _); [done | by vm_compute..|].
  split; [exact H | by vm_compute].
Defined.
End AdmissionAndClosing.

(** ** The cursor throttle *)
Section CursorThrottle.
Import Js SessionsService Gateway Traces MoreTraces Samples.

Lemma spaced_weaken gap last last' ts :
  (last ≤ last')%Z → spaced gap last' ts → spaced gap last ts.
Proof.
  destruct ts as [|t ts]; simpl; [done|]. intros ? [? ?]. split; [lia|done].
Qed.

Lemma spaced_100_window_budget T last ts :
  spaced 100 last ts →
  (100 * Z.of_nat (length (filter (in_window T) ts))
   ≤ Z.max 0 (T + 999 - last))%Z.
Proof.
  revert last. induction ts as [|t ts IH]; intros last; cbn [spaced].
  - intros _. rewrite filter_nil. simpl. lia.
  - intros [Hgap Hrest]. specialize (IH t Hrest).
    rewrite filter_cons. destruct (decide (in_window T t)) as [Hin|Hout].
    + unfold in_window in Hin. simpl length. lia.
    + lia.
Qed.

Lemma spaced_100_window_at_most_10 T last ts :
  spaced 100 last ts → (length (filter (in_window T) ts) ≤ 10)%nat.
Proof.
  revert last. induction ts as [|t ts IH]; intros last; cbn [spaced].
  - intros _. rewrite filter_nil. simpl. lia.
  - intros [Hgap Hrest]. rewrite filter_cons.
    destruct (decide (in_window T t)) as [Hin|Hout]; [|by eapply IH].
    pose proof (spaced_100_window_budget T t ts Hrest) as Hb.
    unfold in_window in Hin. simpl length. lia.
Qed.

Lemma readings_of_spaced gap p (thr : State → gmap string Z) userId tr :
  (∀ st a, a ∈ tr →
     throttled_step gap p (default 0%Z (thr st !! userId))
       (default 0%Z (thr (step st a).1 !! userId)) a (step st a).2) →
  ∀ st, spaced gap (default 0%Z (thr st !! userId)) (readings_of p st tr).
Proof.
  induction tr as [|a tr IH]; intros Hstep st; simpl; [done|].
  pose proof (Hstep st a ltac:(left)) as Ha.
  assert (IH' : ∀ st, spaced gap (default 0%Z (thr st !! userId))
                        (readings_of p st tr)).
  { apply IH. intros st' a' Hin. apply Hstep. by right. }
  destruct (step st a) as [st1 out1]. simpl in Ha. specialize (IH' st1).
  destruct Ha as [[Hex Hle]|(Hex & clock & Hclock & Hlast & Hgap)].
  - rewrite Hex. destruct (action_clock a); by eapply spaced_weaken.
  - rewrite Hclock, Hex. simpl. rewrite Hlast in *. by split.
Qed.

Lemma handleCursorUpdate_throttle userId client message clock st :
  let r := handleCursorUpdate client message clock st in
  throttled_step 100 (is_cursor_of userId)
    (default 0%Z (cursorUpdateThrottle st !! userId))
    (default 0%Z (cursorUpdateThrottle r.1 !! userId))
    (CursorUpdate client message clock) r.2.
Proof.
  unfold handleCursorUpdate, throttled_step.
  destruct (truthy_str (userSessions st !! client)) as [sid|];
    [|simpl; left; split; [done | lia]].
  destruct (truthy_str (socketUsers st !! client)) as [uid|];
    [|simpl; left; split; [done | lia]].
  destruct (strict_neq_str sid (m_sessionId message));
    [simpl; left; split; [done | lia]|].
  case_bool_decide as Hthr; [simpl; left; split; [done | lia]|].
  simpl. destruct (decide (uid = userId)) as [->|Hne].
  - rewrite lookup_insert_eq, String.eqb_refl. simpl.
    right. split; [done|]. exists clock. split_and!; [done | done | lia].
  - rewrite lookup_insert_ne by done.
    destruct (String.eqb_spec uid userId); [done|].
    left. split; [done | lia].
Qed.

Lemma step_cursor_throttle userId st a :
  is_disconnect a = false →
  throttled_step 100 (is_cursor_of userId)
    (default 0%Z (cursorUpdateThrottle st !! userId))
    (default 0%Z (cursorUpdateThrottle (step st a).1 !! userId))
    a (step st a).2.
Proof.
  destruct a; simpl; intros Hnd; try discriminate Hnd;
    try (left; split; [done | lia]).
  - unfold handleConnection.
    repeat case_match; simpl; left; (split; [done | lia]).
  - unfold handleCodeUpdate.
    handler_cases; left; (split; [done | lia]).
  - apply handleCursorUpdate_throttle.
  - unfold handleLanguageChange.
    handler_cases; left; (split; [done | lia]).
Qed.

(** Property X13.  A cursor event that passed the membership check is
    dropped without a trace when its reading of the clock is less than
    100 ms after the time the cursor throttle holds for its user.  Otherwise
    the throttle takes that reading and the event is broadcast to the room
    without the sender, with the payload exactly as it came, and leaves the
    version counter and the language of every session as they were.  As long
    as no connection closes, the cursor events of one user that are
    broadcast have readings at the throttle at least 100 ms apart, so at
    most 10 of them have a reading within any one second. *)
Theorem cursor_throttle_drops_and_bounds :
  (∀ client message clock st sessionId userId last,
     truthy_str (userSessions st !! client) = Some sessionId →
     truthy_str (socketUsers st !! client) = Some userId →
     m_sessionId message = JsStr sessionId →
     cursorUpdateThrottle st !! userId = Some last →
     (c_now clock - last < 100)%Z →
     handleCursorUpdate client message clock st = (st, []))
  ∧ (∀ client message clock st sessionId userId,
       truthy_str (userSessions st !! client) = Some sessionId →
       truthy_str (socketUsers st !! client) = Some userId →
       m_sessionId message = JsStr sessionId →
       (100 ≤ c_now clock
              - default 0 (cursorUpdateThrottle st !! userId))%Z →
       let r := handleCursorUpdate client message clock st in
       r.2 = [ ClientToEmit client sessionId "cursor-update"
                 (Envelope "cursor-update" (JsStr sessionId) userId
                    (PCursor (m_payload message)) (c_stamp clock)) ]
       ∧ cursorUpdateThrottle r.1 !! userId = Some (c_now clock)
       ∧ ∀ other,
           version_in other (sessions r.1) = version_in other (sessions st)
           ∧ sd_language <$> getSessionData other (sessions r.1)
             = sd_language <$> getSessionData other (sessions st))
  ∧ (∀ st tr userId,
       forallb (fun a => negb (is_disconnect a)) tr = true →
       spaced 100 (default 0%Z (cursorUpdateThrottle st !! userId))
         (readings_of (is_cursor_of userId) st tr)
       ∧ ∀ T, (length (filter (in_window T)
                         (readings_of (is_cursor_of userId) st tr))
               ≤ 10)%nat).
Proof.
  split_and!.
  - intros client message clock st sessionId userId last Hs Hu Hm Hlast Hsoon.
    unfold handleCursorUpdate.
    rewrite Hs, Hu, Hm, strict_neq_str_same, Hlast. simpl.
    by rewrite bool_decide_eq_true_2.
  - intros client message clock st sessionId userId Hs Hu Hm Hlate r. subst r.
    unfold handleCursorUpdate.
    rewrite Hs, Hu, Hm, strict_neq_str_same.
    rewrite bool_decide_eq_false_2 by lia. simpl.
    rewrite lookup_insert_eq. split_and!; [done..|].
    intros other. split; [apply version_in_updateUserLastSeen|].
    unfold getSessionData, updateUserLastSeen.
    destruct (Map_get sessionId (sessions st)) as [sd|] eqn:Hget; [|done].
    destruct (Map_get userId (sd_users sd)); [|done].
    destruct (decide (sessionId = other)) as [<-|Hne].
    + by rewrite Map_get_set_eq, Hget.
    + by rewrite Map_get_set_ne.
  - intros st tr userId Hnd.
    assert (Hsp : spaced 100 (default 0%Z (cursorUpdateThrottle st !! userId))
                    (readings_of (is_cursor_of userId) st tr)).
    { apply (readings_of_spaced 100 _ cursorUpdateThrottle).
      intros st' a Hin. apply step_cursor_throttle.
      rewrite forallb_forall in Hnd. apply negb_true_iff, Hnd.
      by apply list_elem_of_In. }
    split; [done|]. intros T. by eapply spaced_100_window_at_most_10.
Qed.

Lemma cursor_throttle_drops_and_bounds_witness :
  (handleCursorUpdate "sockA" (edit sid1 "x")
     {| c_now := 100000; c_seen := 100000; c_stamp := 100001 |}
     two_users).2
  = [ ClientToEmit "sockA" sid1 "cursor-update"
        (Envelope "cursor-update" (JsStr sid1) "alice"
           (PCursor (m_payload (edit sid1 "x"))) 100001) ]
  ∧ (let st1 :=
       (handleCursorUpdate "sockA" (edit sid1 "x")
          {| c_now := 100000; c_seen := 100000; c_stamp := 100001 |}
          two_users).1 in
     handleCursorUpdate "sockA" (edit sid1 "y") (tick 100050) st1
     = (st1, []))
  ∧ readings_of (is_cursor_of "alice") two_users
      [ CursorUpdate "sockA" (edit sid1 "x") (tick 100000);
        CursorUpdate "sockA" (edit sid1 "x") (tick 100099);
        CursorUpdate "sockA" (edit sid1 "x") (tick 100100) ]
    = [100000%Z; 100100%Z].
Proof.
  destruct cursor_throttle_drops_and_bounds as (Hdrop & Hpass & _).
  split_and!.
  - apply (Hpass "sockA" (edit sid1 "x")
             {| c_now := 100000; c_seen := 100000; c_stamp := 100001 |}
             two_users sid1 "alice");
      by vm_compute.
  - intros st1.
    apply (Hdrop "sockA" (edit sid1 "y") (tick 100050) st1 sid1 "alice"
             100000%Z);
      by vm_compute.
  - by vm_compute.
Defined.
End CursorThrottle.

(** ** What socket events never do to the registry *)
Section SocketEventsAndSessions.
Import Js SessionsService Gateway Traces MoreTraces RegistryOps.

Lemma Map_keys_set_present {V} (k : string) (v v0 : V) m :
  Map_get k m = Some v0 → Map_keys (Map_set k v m) = Map_keys m.
Proof. intros H. rewrite Map_keys_set. unfold Map_has. by rewrite H. Qed.

Lemma keys_addUserToSession sid uid name sock now (r : Registry) :
  Map_keys (addUserToSession sid uid name sock now r).1 = Map_keys r.
Proof.
  unfold addUserToSession.
  destruct (Map_get sid r) eqn:H; simpl; [|done].
  by eapply Map_keys_set_present.
Qed.

Lemma keys_removeUserFromSession sid uid (r : Registry) :
  Map_keys (removeUserFromSession sid uid r).1 = Map_keys r.
Proof.
  unfold removeUserFromSession.
  destruct (Map_get sid r) as [sd|] eqn:H; simpl; [|done].
  destruct (Map_has uid (sd_users sd)); simpl; [|done].
  by eapply Map_keys_set_present.
Qed.

Lemma keys_updateUserLastSeen sid uid now (r : Registry) :
  Map_keys (updateUserLastSeen sid uid now r) = Map_keys r.
Proof.
  unfold updateUserLastSeen.
  destruct (Map_get sid r) as [sd|] eqn:H; [|done].
  destruct (Map_get uid (sd_users sd)); [|done].
  by eapply Map_keys_set_present.
Qed.

Lemma keys_updateSessionLanguage sid language (r : Registry) :
  Map_keys (updateSessionLanguage sid language r).1 = Map_keys r.
Proof.
  unfold updateSessionLanguage.
  destruct (Map_get sid r) eqn:H; simpl; [|done].
  by eapply Map_keys_set_present.
Qed.

Lemma keys_incrementCodeVersion sid (r : Registry) :
  Map_keys (incrementCodeVersion sid r).1 = Map_keys r.
Proof.
  unfold incrementCodeVersion.
  destruct (Map_get sid r) eqn:H; simpl; [|done].
  by eapply Map_keys_set_present.
Qed.

Lemma step_socket_keys st a :
  is_socket_action a = true →
  Map_keys (sessions (step st a).1) = Map_keys (sessions st).
Proof.
  destruct a; simpl; intros Hs; try discriminate Hs.
  - unfold handleConnection. repeat case_match; simpl; try done.
    all: match goal with
         | H : addUserToSession ?a ?b ?c ?d ?e ?r = (?r', _) |- _ =>
             replace r' with (addUserToSession a b c d e r).1
               by (by rewrite H);
             apply keys_addUserToSession
         end.
  - unfold handleDisconnect. simpl. repeat case_match; simpl; try done.
    apply keys_removeUserFromSession.
  - unfold handleCodeUpdate. handler_cases; try done.
    all: match goal with
         | H : incrementCodeVersion ?a ?r = (?r', _) |- _ =>
             rewrite ?keys_updateUserLastSeen;
             replace r' with (incrementCodeVersion a r).1
               by (by rewrite H);
             apply keys_incrementCodeVersion
         end.
  - unfold handleCursorUpdate. handler_cases; try done.
    apply keys_updateUserLastSeen.
  - unfold handleLanguageChange. handler_cases; try done.
    all: match goal with
         | H : updateSessionLanguage ?a ?b ?r = (?r', _) |- _ =>
             rewrite ?keys_updateUserLastSeen;
             replace r' with (updateSessionLanguage a b r).1
               by (by rewrite H);
             apply keys_updateSessionLanguage
         end.
Qed.

(** Property X14.  Nothing that comes over a socket creates or deletes a
    session: along any sequence of connections, closures, edits, cursor
    events and language changes the registry keeps the same session ids in
    the same order, so a session that is absent stays absent and one that is
    stored stays stored. *)
Theorem socket_events_keep_the_sessions (st : State) (tr : list Action) :
  forallb is_socket_action tr = true →
  Map_keys (sessions (run st tr).1) = Map_keys (sessions st)
  ∧ ∀ sessionId,
      is_Some (getSession sessionId (sessions (run st tr).1))
      ↔ is_Some (getSession sessionId (sessions st)).
Proof.
  intros Hs.
  assert (Hkeys : Map_keys (sessions (run st tr).1) = Map_keys (sessions st)).
  { revert st. induction tr as [|a tr IH]; intros st; simpl; [done|].
    simpl in Hs. apply andb_true_iff in Hs as [Ha Htr].
    pose proof (step_socket_keys st a Ha) as H1.
    destruct (step st a) as [st1 out1]. specialize (IH Htr st1).
    destruct (run st1 tr) as [st2 out2]. simpl in *. congruence. }
  split; [done|]. intros sessionId.
  assert (Hmem : ∀ (r : Registry),
    is_Some (getSession sessionId r) ↔ sessionId ∈ Map_keys r).
  { intros r. unfold getSession.
    destruct (Map_get sessionId r) as [sd|] eqn:Hget.
    - split; [intros _ | by eexists].
      apply Map_get_Some_elem in Hget. unfold Map_keys.
      apply list_elem_of_fmap. by exists (sessionId, sd).
    - split; [by intros [? ?] | intros Hin].
      by apply Map_get_None_keys in Hget. }
  by rewrite !Hmem, Hkeys.
Qed.

Lemma socket_events_keep_the_sessions_witness :
  Map_keys
    (sessions
       (run Samples.two_users
          [ CodeUpdate "sockA" (Samples.edit Samples.sid1 "x")
              (Samples.tick 100000);
            Disconnect "sockA" 100100;
            Disconnect "sockB" 100200 ]).1)
  = [Samples.sid1].
Proof.
  destruct (socket_events_keep_the_sessions Samples.two_users
              [ CodeUpdate "sockA" (Samples.edit Samples.sid1 "x")
              (Samples.tick 100000);
                Disconnect "sockA" 100100;
                Disconnect "sockB" 100200 ] eq_refl) as [H _].
  exact H.
Defined.
End SocketEventsAndSessions.

(** ** The registry in the states the gateway can reach *)
Section ReachableRegistry.
Import Js SessionsService Gateway Traces MoreTraces RegistryOps.

Lemma keyed_Map_set (k : string) (v : SessionUser) m :
  Forall (fun entry => u_id entry.2 = entry.1) m → u_id v = k →
  Forall (fun entry => u_id entry.2 = entry.1) (Map_set k v m).
Proof.
  intros Hall Hv. induction m as [|[k' v'] m IH]; simpl.
  - by constructor.
  - apply Forall_cons in Hall as [Hv' Hall].
    destruct (decide (k = k')); constructor; auto.
Qed.

Lemma keyed_Map_delete (k : string) (m : list (string * SessionUser)) :
  Forall (fun entry => u_id entry.2 = entry.1) m →
  Forall (fun entry => u_id entry.2 = entry.1) (Map_delete k m).
Proof.
  intros Hall. induction m as [|[k' v'] m IH]; simpl; [done|].
  apply Forall_cons in Hall as [Hv' Hall].
  destruct (decide (k = k')); [auto | constructor; auto].
Qed.

Lemma sweep_keyed now (l : Registry) (acc : Registry) :
  Forall (fun entry => keyed_by_id entry.2) acc →
  Forall (fun entry => keyed_by_id entry.2)
    (fold_left
       (fun acc entry =>
          if inactive now entry.2 then Map_delete entry.1 acc else acc)
       l acc).
Proof.
  revert acc. induction l as [|[k sd] l IH]; intros acc Hacc; simpl; [done|].
  apply IH. destruct (inactive now sd); [|done].
  by apply Forall_Map_delete.
Qed.

Lemma apply_keyed r op :
  Forall (fun entry => keyed_by_id entry.2) r →
  Forall (fun entry => keyed_by_id entry.2) (apply r op).
Proof.
  intros Hall. destruct op; simpl.
  - apply (Forall_Map_set keyed_by_id); [done | constructor].
  - by apply Forall_Map_delete.
  - unfold addUserToSession.
    destruct (Map_get sessionId r) as [sd|] eqn:Hget; simpl; [|done].
    pose proof (Forall_Map_get keyed_by_id _ _ _ Hall Hget) as Hk.
    apply (Forall_Map_set keyed_by_id); [done|].
    unfold keyed_by_id. simpl. by apply keyed_Map_set.
  - unfold removeUserFromSession.
    destruct (Map_get sessionId r) as [sd|] eqn:Hget; simpl; [|done].
    pose proof (Forall_Map_get keyed_by_id _ _ _ Hall Hget) as Hk.
    destruct (Map_has userId (sd_users sd)); simpl; [|done].
    apply (Forall_Map_set keyed_by_id); [done|].
    unfold keyed_by_id. simpl. by apply keyed_Map_delete.
  - unfold updateUserLastSeen.
    destruct (Map_get sessionId r) as [sd|] eqn:Hget; [|done].
    pose proof (Forall_Map_get keyed_by_id _ _ _ Hall Hget) as Hk.
    destruct (Map_get userId (sd_users sd)) as [user|] eqn:Hu; [|done].
    apply (Forall_Map_set keyed_by_id); [done|].
    unfold keyed_by_id. simpl. apply keyed_Map_set; [done|]. simpl.
    apply Map_get_Some_elem in Hu. unfold keyed_by_id in Hk.
    rewrite Forall_forall in Hk. apply (Hk (userId, user) Hu).
  - unfold updateSessionLanguage.
    destruct (Map_get sessionId r) as [sd|] eqn:Hget; simpl; [|done].
    pose proof (Forall_Map_get keyed_by_id _ _ _ Hall Hget) as Hk.
    by apply (Forall_Map_set keyed_by_id).
  - unfold incrementCodeVersion.
    destruct (Map_get sessionId r) as [sd|] eqn:Hget; simpl; [|done].
    pose proof (Forall_Map_get keyed_by_id _ _ _ Hall Hget) as Hk.
    by apply (Forall_Map_set keyed_by_id).
  - by apply sweep_keyed.
Qed.

Lemma apply_sound r op : sound r → sound (apply r op).
Proof.
  intros [Hc Hk]. split; [by apply apply_consistent | by apply apply_keyed].
Qed.

Lemma foldl_apply_sound ops r : sound r → sound (foldl apply r ops).
Proof.
  revert r. induction ops as [|op ops IH]; intros r Hr; simpl; [done|].
  apply IH. by apply apply_sound.
Qed.

(** What a step of the gateway does to the registry is a sequence of
    calls of the service. *)
Lemma step_registry_ops st a :
  ∃ ops, sessions (step st a).1 = foldl apply (sessions st) ops.
Proof.
  destruct a; simpl.
  - by exists [OpCreateSession sessionId now language].
  - by exists [OpDeleteSession sessionId].
  - by exists [OpCleanupInactiveSessions now].
  - unfold handleConnection.
    destruct (truthy_str (q_sessionId query)) as [sid|]; [|by exists []].
    destruct (truthy_str (q_userId query)) as [uid|]; [|by exists []].
    destruct (truthy_str (q_userName query)) as [name|]; [|by exists []].
    destruct (getSession sid (sessions st)); [|by exists []].
    exists [OpAddUserToSession sid uid name client now]. simpl.
    by destruct (addUserToSession sid uid name client now (sessions st))
      as [sessions' [user|]].
  - unfold handleDisconnect. simpl.
    destruct (truthy_str (userSessions st !! client)) as [sid|];
      [|by exists []].
    destruct (truthy_str (socketUsers st !! client)) as [uid|];
      [|by exists []].
    by exists [OpRemoveUserFromSession sid uid].
  - unfold handleCodeUpdate.
    destruct (truthy_str (userSessions st !! client)) as [sid|];
      [|by exists []].
    destruct (truthy_str (socketUsers st !! client)) as [uid|];
      [|by exists []].
    destruct (strict_neq_str sid (m_sessionId message)); [by exists []|].
    case_bool_decide; [by exists []|]. simpl sessions.
    destruct (incrementCodeVersion sid (sessions st)) as [sessions1 version]
      eqn:Hinc.
    assert (Hs : sessions1 = (incrementCodeVersion sid (sessions st)).1)
      by (by rewrite Hinc).
    destruct (version =? -1)%Z.
    + exists [OpIncrementCodeVersion sid]. simpl. by rewrite Hs.
    + exists [OpIncrementCodeVersion sid; OpUpdateUserLastSeen sid uid (c_seen clock)].
      destruct (prop (m_payload message) "delta"); simpl; by rewrite Hs.
  - unfold handleCursorUpdate.
    destruct (truthy_str (userSessions st !! client)) as [sid|];
      [|by exists []].
    destruct (truthy_str (socketUsers st !! client)) as [uid|];
      [|by exists []].
    destruct (strict_neq_str sid (m_sessionId message)); [by exists []|].
    case_bool_decide; [by exists []|].
    by exists [OpUpdateUserLastSeen sid uid (c_seen clock)].
  - unfold handleLanguageChange.
    destruct (truthy_str (userSessions st !! client)) as [sid|];
      [|by exists []].
    destruct (truthy_str (socketUsers st !! client)) as [uid|];
      [|by exists []].
    destruct (strict_neq_str sid (m_sessionId message)); [by exists []|].
    destruct (Language_includes (m_payload message)) as [language|];
      [|by exists []].
    case_bool_decide; [by exists []|]. simpl sessions.
    destruct (updateSessionLanguage sid language (sessions st))
      as [sessions1 updated] eqn:Hupd.
    assert (Hs : sessions1 = (updateSessionLanguage sid language
                                (sessions st)).1)
      by (by rewrite Hupd).
    destruct updated; simpl.
    + exists [OpUpdateSessionLanguage sid language;
              OpUpdateUserLastSeen sid uid (c_seen clock)]. simpl. by rewrite Hs.
    + by exists [].
Qed.

Lemma step_sound st a : sound (sessions st) → sound (sessions (step st a).1).
Proof.
  intros H. destruct (step_registry_ops st a) as [ops ->].
  by apply foldl_apply_sound.
Qed.

Lemma keyed_values_keys (m : list (string * SessionUser)) :
  Forall (fun entry => u_id entry.2 = entry.1) m →
  u_id <$> Map_values m = Map_keys m.
Proof.
  unfold Map_values, Map_keys.
  induction m as [|[k u] m IH]; csimpl; [done|].
  intros Hk. apply Forall_cons in Hk as [Hku Hk]. simpl in Hku.
  by rewrite Hku, IH.
Qed.

Lemma presence_of_sound sessionId (r : Registry) :
  sound r →
  NoDup (u_id <$> getSessionUsers sessionId r)
  ∧ ∀ s, getSession sessionId r = Some s →
         s_participantCount s = length (u_id <$> getSessionUsers sessionId r).
Proof.
  intros [[Hwf Hcount] Hkeyed]. unfold getSessionUsers, getSession.
  destruct (Map_get sessionId r) as [sd|] eqn:Hget.
  - pose proof (Forall_Map_get counted _ _ _ Hcount Hget) as [Hpc Hu].
    pose proof (Forall_Map_get keyed_by_id _ _ _ Hkeyed Hget) as Hk.
    assert (Hids : u_id <$> Map_values (sd_users sd) = Map_keys (sd_users sd))
      by (by apply keyed_values_keys).
    rewrite Hids. split; [done|]. intros s [= <-]. simpl.
    rewrite Hpc. unfold Map_size, Map_keys. by rewrite length_fmap.
  - split; [apply NoDup_nil_2 | done].
Qed.

Lemma step_presence_frames st a :
  sound (sessions st) →
  ∀ e ids, e ∈ (step st a).2 → presence_frame_ids e = Some ids → NoDup ids.
Proof.
  intros Hsound e ids.
  assert (Hb : ∀ sessionId now st',
    sound (sessions st') →
    ∀ e, e ∈ broadcastPresenceUpdate sessionId now st' →
    presence_frame_ids e = Some ids → NoDup ids).
  { intros sessionId now st' Hs e' Hin.
    apply list_elem_of_singleton in Hin as ->. simpl. intros [= <-].
    rewrite <- list_fmap_compose.
    apply (presence_of_sound sessionId _ Hs). }
  destruct a; simpl.
  - intros Hin. by apply elem_of_nil in Hin.
  - intros Hin. by apply elem_of_nil in Hin.
  - intros Hin. by apply elem_of_nil in Hin.
  - pose proof (step_sound st (Connect client query now) Hsound) as Hs1.
    simpl in Hs1. revert Hs1. unfold handleConnection.
    destruct (truthy_str (q_sessionId query)) as [sid|];
      [|intros _ Hin; apply list_elem_of_singleton in Hin as ->; done].
    destruct (truthy_str (q_userId query)) as [uid|];
      [|intros _ Hin; apply list_elem_of_singleton in Hin as ->; done].
    destruct (truthy_str (q_userName query)) as [name|];
      [|intros _ Hin; apply list_elem_of_singleton in Hin as ->; done].
    destruct (getSession sid (sessions st));
      [|intros _ Hin; apply list_elem_of_singleton in Hin as ->; done].
    destruct (addUserToSession sid uid name client now (sessions st))
      as [sessions' [user|]];
      [|intros _ Hin; apply list_elem_of_singleton in Hin as ->; done].
    simpl fst. simpl snd. intros Hs1 Hin.
    apply elem_of_cons in Hin as [->|Hin]; [done|].
    apply elem_of_cons in Hin as [->|Hin]; [done|].
    eapply Hb; [|exact Hin]. exact Hs1.
  - pose proof (step_sound st (Disconnect client now) Hsound) as Hs1.
    simpl in Hs1. revert Hs1. unfold handleDisconnect. simpl.
    destruct (truthy_str (userSessions st !! client)) as [sid|];
      [|intros _ Hin; by apply elem_of_nil in Hin].
    destruct (truthy_str (socketUsers st !! client)) as [uid|];
      [|intros _ Hin; by apply elem_of_nil in Hin].
    simpl. intros Hs1 Hin.
    apply elem_of_cons in Hin as [->|Hin]; [done|].
    eapply Hb; [|exact Hin]. exact Hs1.
  - unfold handleCodeUpdate. handler_cases; intros Hin;
      first [by apply elem_of_nil in Hin
            | apply list_elem_of_singleton in Hin as ->; done].
  - unfold handleCursorUpdate. handler_cases; intros Hin;
      first [by apply elem_of_nil in Hin
            | apply list_elem_of_singleton in Hin as ->; done].
  - unfold handleLanguageChange. handler_cases; intros Hin;
      apply list_elem_of_singleton in Hin as ->; done.
Qed.

(** Property X15.  In every state that the gateway reaches from its start,
    whatever the HTTP routes, the sweep and the sockets did, the presence
    snapshot of a session lists pairwise distinct user ids, and the
    participant count that [getSession] reports for the session is the
    length of that snapshot.  Every ['presence-update'] frame that was
    emitted on the way lists pairwise distinct user ids as well. *)
Theorem presence_snapshot_is_duplicate_free (tr : list Action) :
  let r := run init tr in
  (∀ sessionId,
     NoDup (presence_ids sessionId r.1)
     ∧ ∀ s, getSession sessionId (sessions r.1) = Some s →
            s_participantCount s = length (presence_ids sessionId r.1))
  ∧ (∀ d ids, d ∈ r.2 → presence_frame_ids d.1 = Some ids → NoDup ids).
Proof.
  assert (Hgen : ∀ tr st, sound (sessions st) →
    sound (sessions (run st tr).1)
    ∧ ∀ d ids, d ∈ (run st tr).2 →
               presence_frame_ids d.1 = Some ids → NoDup ids).
  { clear. induction tr as [|a tr IH]; intros st Hs; simpl.
    - split; [done|]. intros d ids Hin. by apply elem_of_nil in Hin.
    - pose proof (step_sound st a Hs) as Hs1.
      pose proof (step_presence_frames st a Hs) as Hf.
      destruct (step st a) as [st1 out1]. simpl in Hs1, Hf.
      destruct (IH st1 Hs1) as [Hs2 Hf2].
      destruct (run st1 tr) as [st2 out2]. simpl in *.
      split; [done|]. intros d ids Hin Hd.
      apply elem_of_app in Hin as [Hin|Hin]; [|by eapply Hf2].
      unfold deliver in Hin. apply list_elem_of_fmap in Hin as (e & -> & He).
      by eapply Hf. }
  intros r. subst r.
  destruct (Hgen tr init) as [Hs Hf].
  { split; [split; [apply NoDup_nil_2 | constructor] | constructor]. }
  split; [|exact Hf]. intros sessionId.
  apply (presence_of_sound sessionId _ Hs).
Qed.
End ReachableRegistry.

(** ** The order of the versions that are broadcast *)
Section VersionOrder.
Import Js SessionsService Gateway Traces MoreTraces Samples.


End VersionOrder.

(** ** The HTTP rate limiter over sequences of requests *)
Section RateLimitWindows.
Import RateLimitGuard RateLimitRuns Samples.

Lemma includes_eq (s pat : string) :
  includes s pat
  = if String.prefix pat s then true
    else match s with
         | EmptyString => false
         | String _ s' => includes s' pat
         end.
Proof. by destruct s. Qed.

Lemma prefix_app (p q s : string) :
  String.prefix (p ++ q) s = true → String.prefix p s = true.
Proof.
  revert s. induction p as [|c p IH]; intros s; simpl.
  - intros _. by destruct s.
  - destruct s as [|c' s]; simpl; [done|].
    destruct (Ascii.ascii_dec c c'); [apply IH | done].
Qed.

Lemma includes_app (s p q : string) :
  includes s (p ++ q) = true → includes s p = true.
Proof.
  induction s as [|c s IH].
  - rewrite (includes_eq "" (p ++ q)), (includes_eq "" p).
    destruct (String.prefix (p ++ q) "") eqn:Hpre; [|done].
    intros _. by rewrite (prefix_app _ _ _ Hpre).
  - rewrite (includes_eq (String c s) (p ++ q)), (includes_eq (String c s) p).
    destruct (String.prefix (p ++ q) (String c s)) eqn:Hpre.
    + intros _. by rewrite (prefix_app _ _ _ Hpre).
    + intros H. rewrite (IH H). by destruct (String.prefix p (String c s)).
Qed.

Lemma getLimit_loop_limits (key : string) :
  getLimit_loop key limits
  = if includes key "POST /sessions" then {| max := 10; window := 60000 |}
    else if includes key "POST /sessions/:sessionId/join"
         then {| max := 20; window := 60000 |}
         else limits_default.
Proof. reflexivity. Qed.

Lemma getLimit_values (request : Request) :
  getLimit request
  = if includes (req_method request ++ " " ++ request_path request)
         "POST /sessions"
    then {| max := 10; window := 60000 |}
    else {| max := 100; window := 60000 |}.
Proof.
  unfold getLimit. rewrite getLimit_loop_limits.
  destruct (includes _ "POST /sessions") eqn:Hcreate; [done|].
  destruct (includes _ "POST /sessions/:sessionId/join") eqn:Hjoin; [|done].
  apply (includes_app _ "POST /sessions" "/:sessionId/join") in Hjoin.
  congruence.
Qed.

Lemma getLimit_bounds (request : Request) :
  (1 ≤ max (getLimit request))%Z ∧ window (getLimit request) = 60000%Z.
Proof. rewrite getLimit_values. by destruct (includes _ _). Qed.

Lemma canActivate_fresh (request : Request) (now : Z)
    (store : RateLimitStore) :
  (∀ record, store !! getKey request = Some record →
             (now > resetTime record)%Z) →
  canActivate request now store
  = (<[getKey request :=
         {| count := 1; resetTime := now + window (getLimit request) |}]>
       store, Allowed).
Proof.
  intros Hexp. unfold canActivate.
  destruct (store !! getKey request) as [record|]; [|done].
  by rewrite bool_decide_eq_true_2 by (by apply Hexp).
Qed.

Lemma canActivate_open (request : Request) (now : Z)
    (store : RateLimitStore) record :
  store !! getKey request = Some record →
  (now ≤ resetTime record)%Z →
  canActivate request now store
  = if bool_decide (count record >= max (getLimit request))%Z
    then (store, Rejected "RATE_LIMIT_EXCEEDED" 429)
    else (<[getKey request :=
              {| count := count record + 1;
                 resetTime := resetTime record |}]> store, Allowed).
Proof.
  intros Hrec Hopen. unfold canActivate. rewrite Hrec.
  by rewrite bool_decide_eq_false_2 by lia.
Qed.

Lemma verdicts_open_window (request : Request) (ts : list Z)
    (store : RateLimitStore) (c R : Z) :
  store !! getKey request = Some {| count := c; resetTime := R |} →
  Forall (fun t => (t ≤ R)%Z) ts →
  let room := Z.to_nat (max (getLimit request) - c) in
  (verdicts request ts store).2
  = (replicate (length ts `min` room) Allowed
     ++ replicate (length ts - room) (Rejected "RATE_LIMIT_EXCEEDED" 429))%list.
Proof.
  revert store c. induction ts as [|t ts IH]; intros store c Hrec Hts room.
  - done.
  - apply Forall_cons in Hts as [Ht Hts]. cbn [verdicts].
    rewrite (canActivate_open request t store _ Hrec Ht). simpl count.
    simpl resetTime. case_bool_decide as Hfull.
    + specialize (IH store c Hrec Hts). simpl in IH.
      destruct (verdicts request ts store) as [store2 vs]. simpl in *.
      rewrite IH. subst room.
      replace (Z.to_nat (max (getLimit request) - c)) with 0%nat by lia.
      by rewrite Nat.min_0_r, Nat.sub_0_r.
    + specialize (IH (<[getKey request :=
                          {| count := c + 1; resetTime := R |}]> store)
                     (c + 1)%Z ltac:(by rewrite lookup_insert_eq) Hts).
      simpl in IH.
      destruct (verdicts request ts _) as [store2 vs]. simpl in *.
      rewrite IH. subst room.
      replace (Z.to_nat (max (getLimit request) - c))
        with (S (Z.to_nat (max (getLimit request) - (c + 1)))) by lia.
      done.
Qed.

(** Property X17.  The limiter counts in fixed windows.  When a request
    finds no record for its key, or one whose window is over, that request
    opens a window of 60 seconds; of the requests with the same key that
    come while the window is open, in whatever rhythm, the guard lets
    through exactly as many as bring the total to the maximum that
    [getLimit] selects, and answers every later one with 429 and
    RATE_LIMIT_EXCEEDED.  A request that comes after the window is over is
    let through again. *)
Theorem fixed_window_admits_exactly_max (request : Request) (t0 : Z)
    (ts : list Z) (store : RateLimitStore) :
  (∀ record, store !! getKey request = Some record →
             (t0 > resetTime record)%Z) →
  Forall (fun t => (t ≤ t0 + 60000)%Z) ts →
  let limit := Z.to_nat (max (getLimit request)) in
  (verdicts request (t0 :: ts) store).2
  = (replicate (S (length ts) `min` limit) Allowed
     ++ replicate (S (length ts) - limit)
          (Rejected "RATE_LIMIT_EXCEEDED" 429))%list
  ∧ ∀ t, (t0 + 60000 < t)%Z →
         (canActivate request t (verdicts request (t0 :: ts) store).1).2
         = Allowed.
Proof.
  intros Hexp Hts limit.
  destruct (getLimit_bounds request) as [Hmax Hwin].
  cbn [verdicts]. rewrite (canActivate_fresh request t0 store Hexp), Hwin.
  set (store1 := <[getKey request := _]> store).
  assert (Hrec : store1 !! getKey request
                 = Some {| count := 1; resetTime := t0 + 60000 |})
    by (subst store1; by rewrite lookup_insert_eq).
  pose proof (verdicts_open_window request ts store1 1 (t0 + 60000)
                Hrec Hts) as Hv.
  assert (Hkeep : ∀ ts store c,
    store !! getKey request = Some {| count := c; resetTime := t0 + 60000 |} →
    Forall (fun t => (t ≤ t0 + 60000)%Z) ts →
    ∃ c', (verdicts request ts store).1 !! getKey request
          = Some {| count := c'; resetTime := t0 + 60000 |}).
  { clear. induction ts as [|t ts IH]; intros store c Hrec Hts.
    - by exists c.
    - apply Forall_cons in Hts as [Ht Hts]. cbn [verdicts].
      rewrite (canActivate_open request t store _ Hrec Ht).
      simpl count. simpl resetTime. case_bool_decide.
      + destruct (IH store c Hrec Hts) as [c' Hc'].
        destruct (verdicts request ts store). by exists c'.
      + destruct (IH (<[getKey request :=
                          {| count := c + 1; resetTime := t0 + 60000 |}]>
                        store) (c + 1)%Z
                    ltac:(by rewrite lookup_insert_eq) Hts) as [c' Hc'].
        destruct (verdicts request ts _). by exists c'. }
  destruct (Hkeep ts store1 1%Z Hrec Hts) as [c' Hc'].
  destruct (verdicts request ts store1) as [store2 vs]. simpl in *.
  split.
  - rewrite Hv. subst limit.
    replace (Z.to_nat (max (getLimit request)))
      with (S (Z.to_nat (max (getLimit request) - 1))) by lia.
    done.
  - intros t Hlate. rewrite canActivate_fresh; [done|].
    intros record Hr. rewrite Hc' in Hr. injection Hr as <-. simpl. lia.
Qed.

Lemma fixed_window_admits_exactly_max_witness :
  (verdicts create_request_bare
     (1000%Z :: ((fun i => 1000 + Z.of_nat i)%Z <$> seq 1 11)) ∅).2
  = (replicate 10 Allowed
     ++ replicate 2 (Rejected "RATE_LIMIT_EXCEEDED" 429))%list.
Proof.
  refine (proj1 (fixed_window_admits_exactly_max create_request_bare 1000
                   ((fun i => 1000 + Z.of_nat i)%Z <$> seq 1 11) ∅ _ _)).
  - intros record Hr. by rewrite lookup_empty in Hr.
  - apply Forall_forall. intros t Ht.
    apply list_elem_of_fmap in Ht as (i & -> & Hi).
    apply elem_of_seq in Hi. lia.
Defined.

Lemma append_length (a b : string) :
  String.length (a ++ b) = (String.length a + String.length b)%nat.
Proof. induction a as [|c a IH]; simpl; [done | by rewrite IH]. Qed.

Lemma append_cancel_r (a b s : string) : a ++ s = b ++ s → a = b.
Proof.
  revert b. induction a as [|c a IH]; intros [|c' b] H.
  - done.
  - apply (f_equal String.length) in H. rewrite !append_length in H.
    simpl in H. lia.
  - apply (f_equal String.length) in H. rewrite !append_length in H.
    simpl in H. lia.
  - change (String c (a ++ s) = String c' (b ++ s)) in H.
    injection H as -> H. f_equal. by apply IH.
Qed.

(** Property X18.  The limiter counts per client address and route: a
    request changes no record but the one of its own key, and two requests
    for the same method and path whose addresses ([request.ip], else the
    remote address of the connection, else ['unknown']) differ have
    different keys, so that neither is ever counted against the other. *)
Theorem requests_are_counted_per_address (request other : Request)
    (now : Z) (store : RateLimitStore) :
  req_method request = req_method other →
  request_path request = request_path other →
  opt_or (req_ip request) (opt_or (req_remoteAddress request) "unknown")
  ≠ opt_or (req_ip other) (opt_or (req_remoteAddress other) "unknown") →
  getKey request ≠ getKey other
  ∧ (canActivate request now store).1 !! getKey other
    = store !! getKey other
  ∧ ∀ key, key ≠ getKey request →
           (canActivate request now store).1 !! key = store !! key.
Proof.
  intros Hm Hp Hip.
  assert (Hothers : ∀ key, key ≠ getKey request →
            (canActivate request now store).1 !! key = store !! key).
  { intros key Hne. unfold canActivate.
    destruct (store !! getKey request) as [record|]; simpl.
    - repeat case_bool_decide; simpl; try done;
        by rewrite lookup_insert_ne.
    - by rewrite lookup_insert_ne. }
  assert (Hkeys : getKey request ≠ getKey other).
  { unfold getKey. rewrite Hm, Hp. intros Heq. apply Hip.
    by apply append_cancel_r in Heq. }
  split_and!; [done | | done]. apply Hothers. congruence.
Qed.

Lemma requests_are_counted_per_address_witness :
  let other :=
    {| req_ip := None; req_remoteAddress := Some "10.0.0.2";
       req_method := "POST"; req_route_path := Some "/sessions";
       req_path := "/sessions" |} in
  (canActivate create_request_bare 1000 ∅).1 !! getKey other = None.
Proof.
  intros other.
  destruct (requests_are_counted_per_address create_request_bare other 1000 ∅)
    as (_ & H & _); [reflexivity | reflexivity | by vm_compute |].
  exact H.
Defined.

(** Property X19.  Whatever the request, [getLimit] selects one of two
    limits: 10 per minute when method and path, joined by a space, contain
    ["POST /sessions"], and the default of 100 per minute otherwise.  The
    window is always 60 seconds. *)
Theorem getLimit_is_create_or_default (request : Request) :
  window (getLimit request) = 60000%Z
  ∧ (max (getLimit request) = 10%Z ∨ max (getLimit request) = 100%Z)
  ∧ (max (getLimit request) = 10%Z
     ↔ includes (req_method request ++ " " ++ request_path request)
         "POST /sessions" = true).
Proof.
  rewrite getLimit_values.
  destruct (includes _ "POST /sessions"); simpl.
  - split_and!; [done | by left | done].
  - split_and!; [done | by right | done].
Qed.
End RateLimitWindows.

(** ** The participant list of the client *)
Section ParticipantList.
Import InterviewRoom.

Lemma find_id_None (userId : string) (prev : list User) :
  List.find (fun u => String.eqb (id u) userId) prev = None
  ↔ userId ∉ id <$> prev.
Proof.
  induction prev as [|u prev IH]; csimpl.
  - split; [intros _; apply not_elem_of_nil | done].
  - rewrite not_elem_of_cons, <- IH.
    destruct (String.eqb_spec (id u) userId) as [Heq|Hne].
    + split; [done | intros [Hne _]; by destruct Hne].
    + split; [intros H; split; [congruence | done] | by intros [_ H]].
Qed.

Lemma find_id_Some (userId : string) (prev : list User) u :
  List.find (fun u => String.eqb (id u) userId) prev = Some u →
  userId ∈ id <$> prev.
Proof.
  intros H. destruct (decide (userId ∈ id <$> prev)) as [|Hnot]; [done|].
  apply find_id_None in Hnot. congruence.
Qed.

Lemma onUserLeft_ids (leftUserId : string) (prev : list User) :
  id <$> onUserLeft leftUserId prev
  = filter (fun i => i ≠ leftUserId) (id <$> prev).
Proof.
  unfold onUserLeft. induction prev as [|u prev IH]; csimpl; [done|].
  rewrite filter_cons.
  destruct (String.eqb_spec (id u) leftUserId) as [Heq|Hne]; simpl.
  - by rewrite decide_False by (by intros H; apply H).
  - rewrite decide_True by done. f_equal. exact IH.
Qed.

Lemma onUserLeft_absent (leftUserId : string) (prev : list User) :
  leftUserId ∉ id <$> prev → onUserLeft leftUserId prev = prev.
Proof.
  unfold onUserLeft. induction prev as [|u prev IH]; csimpl; [done|].
  rewrite not_elem_of_cons. intros [Hne Hnot].
  destruct (String.eqb_spec (id u) leftUserId) as [Heq|_]; [congruence|].
  simpl. by rewrite IH.
Qed.

Lemma onUserLeft_app (leftUserId : string) (l k : list User) :
  onUserLeft leftUserId (l ++ k)
  = (onUserLeft leftUserId l ++ onUserLeft leftUserId k)%list.
Proof. unfold onUserLeft. apply List.filter_app. Qed.

(** Property X20.  The updaters of the participant list keep the user ids
    pairwise distinct.  ['user-joined'] appends the user unless a user of
    that id is listed, so that the event received twice changes nothing the
    second time; ['user-left'] removes the user of that id and keeps the
    others in their order; and a user who joins and leaves again leaves the
    list as it was. *)
Theorem participant_list_keeps_ids_distinct (user : User)
    (leftUserId : string) (prev : list User) :
  NoDup (id <$> prev) →
  NoDup (id <$> onUserJoined user prev)
  ∧ id user ∈ id <$> onUserJoined user prev
  ∧ onUserJoined user (onUserJoined user prev) = onUserJoined user prev
  ∧ NoDup (id <$> onUserLeft leftUserId prev)
  ∧ (leftUserId ∉ id <$> onUserLeft leftUserId prev)
  ∧ (∀ u, u ∈ onUserLeft leftUserId prev ↔ u ∈ prev ∧ id u ≠ leftUserId)
  ∧ (id user ∉ id <$> prev →
     onUserLeft (id user) (onUserJoined user prev) = prev).
Proof.
  intros Hnd.
  assert (Hjoined : id user ∈ id <$> onUserJoined user prev).
  { unfold onUserJoined.
    destruct (List.find _ prev) as [u|] eqn:Hfind.
    - by eapply find_id_Some.
    - rewrite fmap_app. apply elem_of_app. right. csimpl. left. }
  split_and!.
  - unfold onUserJoined.
    destruct (List.find _ prev) as [u|] eqn:Hfind; [done|].
    apply find_id_None in Hfind. rewrite fmap_app. apply NoDup_app.
    split_and!; [done | | apply NoDup_singleton].
    intros i Hi Hi'. csimpl in Hi'.
    apply list_elem_of_singleton in Hi' as ->. done.
  - done.
  - unfold onUserJoined at 1.
    destruct (List.find _ (onUserJoined user prev)) as [u|] eqn:Hfind;
      [done|].
    apply find_id_None in Hfind. done.
  - rewrite onUserLeft_ids. by apply NoDup_filter.
  - rewrite onUserLeft_ids. intros Hin.
    apply list_elem_of_filter in Hin as [Hne _]. by apply Hne.
  - intros u. unfold onUserLeft. rewrite list_elem_of_In, List.filter_In.
    rewrite <- list_elem_of_In, negb_true_iff.
    destruct (String.eqb_spec (id u) leftUserId); naive_solver.
  - intros Hnot. unfold onUserJoined.
    destruct (List.find _ prev) as [u|] eqn:Hfind.
    + apply find_id_Some in Hfind. done.
    + rewrite onUserLeft_app, (onUserLeft_absent _ prev Hnot).
      unfold onUserLeft. simpl. rewrite String.eqb_refl. simpl.
      apply app_nil_r.
Qed.

Lemma participant_list_keeps_ids_distinct_witness :
  let alice := {| id := "alice"; name := "Alice"; color := "#ff0000" |} in
  let bob := {| id := "bob"; name := "Bob"; color := "#00ff00" |} in
  onUserJoined bob (onUserJoined bob [alice]) = onUserJoined bob [alice]
  ∧ onUserLeft "bob" (onUserJoined bob [alice]) = [alice].
Proof.
  intros alice bob.
  destruct (participant_list_keeps_ids_distinct bob "alice" [alice])
    as (_ & _ & Hidem & _ & _ & _ & Hback).
  - apply NoDup_singleton.
  - split; [exact Hidem|]. apply Hback. vm_compute.
    intros H. apply list_elem_of_singleton in H. discriminate H.
Defined.
End ParticipantList.

(** ** The language of a session and the language that was announced *)
Section LanguageSync.
Import Js SessionsService Gateway Traces MoreTraces Samples.

Lemma language_set sessionId sid sd sd' (r : Registry) :
  Map_get sid r = Some sd → sd_language sd' = sd_language sd →
  sd_language <$> Map_get sessionId (Map_set sid sd' r)
  = sd_language <$> Map_get sessionId r.
Proof.
  intros Hget Hl. destruct (decide (sid = sessionId)) as [->|Hne].
  - rewrite Map_get_set_eq, Hget. simpl. by rewrite Hl.
  - by rewrite Map_get_set_ne.
Qed.

Lemma language_addUserToSession sessionId sid uid name sock now r :
  sd_language <$> Map_get sessionId (addUserToSession sid uid name sock now r).1
  = sd_language <$> Map_get sessionId r.
Proof.
  unfold addUserToSession.
  destruct (Map_get sid r) as [sd|] eqn:Hget; simpl; [|done].
  by apply (language_set _ _ sd).
Qed.

Lemma language_removeUserFromSession sessionId sid uid r :
  sd_language <$> Map_get sessionId (removeUserFromSession sid uid r).1
  = sd_language <$> Map_get sessionId r.
Proof.
  unfold removeUserFromSession.
  destruct (Map_get sid r) as [sd|] eqn:Hget; simpl; [|done].
  destruct (Map_has uid (sd_users sd)); simpl; [|done].
  by apply (language_set _ _ sd).
Qed.

Lemma language_updateUserLastSeen sessionId sid uid now r :
  sd_language <$> Map_get sessionId (updateUserLastSeen sid uid now r)
  = sd_language <$> Map_get sessionId r.
Proof.
  unfold updateUserLastSeen.
  destruct (Map_get sid r) as [sd|] eqn:Hget; [|done].
  destruct (Map_get uid (sd_users sd)); [|done].
  by apply (language_set _ _ sd).
Qed.

Lemma language_incrementCodeVersion sessionId sid r :
  sd_language <$> Map_get sessionId (incrementCodeVersion sid r).1
  = sd_language <$> Map_get sessionId r.
Proof.
  unfold incrementCodeVersion.
  destruct (Map_get sid r) as [sd|] eqn:Hget; simpl; [|done].
  by apply (language_set _ _ sd).
Qed.

Lemma handleLanguageChange_language sessionId client message clock st :
  let r := handleLanguageChange client message clock st in
  (announced_languages sessionId (deliver r.1 r.2) = []
   ∧ language_in sessionId r.1 = language_in sessionId st)
  ∨ (∃ language,
       announced_languages sessionId (deliver r.1 r.2) = [language]
       ∧ language_in sessionId r.1 = Some language).
Proof.
  unfold handleLanguageChange, language_in, getSessionData.
  destruct (truthy_str (userSessions st !! client)) as [sid|]; [|by left].
  destruct (truthy_str (socketUsers st !! client)) as [uid|]; [|by left].
  destruct (strict_neq_str sid (m_sessionId message)); [by left|].
  destruct (Language_includes (m_payload message)) as [language|];
    [|by left].
  case_bool_decide; [by left|]. simpl sessions.
  unfold updateSessionLanguage.
  destruct (Map_get sid (sessions st)) as [sd|] eqn:Hget; simpl;
    [|by left].
  unfold announced_languages, announced_language. simpl.
  rewrite language_updateUserLastSeen.
  destruct (String.eqb_spec sid sessionId) as [->|Hne].
  - right. exists language. split; [done|]. by rewrite Map_get_set_eq.
  - left. split; [done|]. by rewrite Map_get_set_ne.
Qed.

Lemma step_language sessionId st a :
  touches_session sessionId a = false →
  let r := step st a in
  (announced_languages sessionId (deliver r.1 r.2) = []
   ∧ language_in sessionId r.1 = language_in sessionId st)
  ∨ (∃ language,
       announced_languages sessionId (deliver r.1 r.2) = [language]
       ∧ language_in sessionId r.1 = Some language).
Proof.
  intros Htouch. destruct a; simpl in Htouch; try discriminate Htouch.
  - left. split; [done|]. unfold language_in, getSessionData. simpl.
    destruct (String.eqb_spec sessionId0 sessionId); [done|].
    by rewrite Map_get_set_ne.
  - left. split; [done|]. unfold language_in, getSessionData. simpl.
    destruct (String.eqb_spec sessionId0 sessionId); [done|].
    by rewrite Map_get_delete_ne.
  - left. simpl. unfold handleConnection, language_in, getSessionData.
    repeat case_match; simpl; (split; [done|]); try done.
    all: match goal with
         | H : addUserToSession ?a ?b ?c ?d ?e ?r = (?r', _) |- _ =>
             replace r' with (addUserToSession a b c d e r).1
               by (by rewrite H);
             by rewrite language_addUserToSession
         end.
  - left. simpl. unfold handleDisconnect, language_in, getSessionData. simpl.
    repeat case_match; simpl; (split; [done|]); try done.
    all: by rewrite language_removeUserFromSession.
  - left. simpl. unfold handleCodeUpdate, language_in, getSessionData.
    handler_cases; (split; [done|]); try done.
    all: match goal with
         | H : incrementCodeVersion ?a ?r = (?r', _) |- _ =>
             rewrite ?language_updateUserLastSeen;
             replace r' with (incrementCodeVersion a r).1
               by (by rewrite H);
             by rewrite language_incrementCodeVersion
         end.
  - left. simpl. unfold handleCursorUpdate, language_in, getSessionData.
    handler_cases; (split; [done|]); try done.
    all: by rewrite language_updateUserLastSeen.
  - apply handleLanguageChange_language.
Qed.

(** Property X21.  What the room was told is what the registry holds: along
    any trace in which the session is neither created anew nor deleted and
    no sweep runs, the language of the session is the one that the last
    ['language-changed'] broadcast to its room announced, and the language
    it had at the start if there was no such broadcast. *)
Theorem language_is_the_last_one_announced sessionId (tr : list Action)
    (st : State) :
  forallb (fun a => negb (touches_session sessionId a)) tr = true →
  language_in sessionId (run st tr).1
  = match last (announced_languages sessionId (run st tr).2) with
    | Some language => Some language
    | None => language_in sessionId st
    end.
Proof.
  revert st. induction tr as [|a tr IH]; intros st Htouch; simpl; [done|].
  apply andb_true_iff in Htouch as [Ha Htr]. apply negb_true_iff in Ha.
  pose proof (step_language sessionId st a Ha) as Hstep.
  destruct (step st a) as [st1 out1]. specialize (IH st1 Htr).
  destruct (run st1 tr) as [st2 out2]. simpl in *.
  unfold announced_languages in *. rewrite omap_app, last_app.
  destruct (last (omap (announced_language sessionId) out2)) as [l2|];
    [done|].
  rewrite IH. destruct Hstep as [[-> Hsame]|(language & -> & Hnew)]; done.
Qed.

Lemma language_is_the_last_one_announced_witness :
  language_in sid1
    (run two_users
       [ LanguageChange "sockA" (language_change sid1 "python")
           (tick 100000);
         CodeUpdate "sockB" (edit sid1 "x") (tick 100100);
         LanguageChange "sockB" (language_change sid1 "cobol")
           (tick 100200) ]).1
  = Some PYTHON.
Proof.
  rewrite (language_is_the_last_one_announced sid1
             [ LanguageChange "sockA" (language_change sid1 "python")
                 (tick 100000);
               CodeUpdate "sockB" (edit sid1 "x") (tick 100100);
               LanguageChange "sockB" (language_change sid1 "cobol")
                 (tick 100200) ]
             two_users eq_refl).
  reflexivity.
Defined.
End LanguageSync.

(** ** The HTTP routes on a registry that the service has built *)
Section RoutesAgree.
Import SessionsService SessionsServiceJoin RegistryOps.

End RoutesAgree.

(** ** The client's connection effect *)
Section ConnectionEffect.
Import UseWebSocket UseWebSocketEffects.

(** Property X23.  The connection effect leaves the hook with a socket and
    with [connectedToRef] set to the session and user of the options.  It
    opens at most one connection, with the options' session, user and name
    in the query; it closes the socket it had, listeners removed, exactly
    when that socket belonged to another session or user; and run again
    with the same options it does nothing.  The cleanup on unmount leaves
    neither a socket nor a target, and run again it makes no call. *)
Theorem effect_opens_one_connection (opts : Options) (h : Hook) :
  let r := effect opts h in
  let open := Io (o_sessionId opts) (o_userId opts) (o_userName opts) in
  is_Some (socketRef r.1)
  ∧ connectedToRef r.1 = Some (o_sessionId opts, o_userId opts)
  ∧ (r.2 = [] ∨ r.2 = [open]
     ∨ r.2 = [RemoveAllListeners; SocketDisconnect; open])
  ∧ (r.2 = [RemoveAllListeners; SocketDisconnect; open]
     ↔ is_Some (socketRef h)
       ∧ ∃ target, connectedToRef h = Some target
                   ∧ target ≠ (o_sessionId opts, o_userId opts))
  ∧ effect opts r.1 = (r.1, [])
  ∧ socketRef (unmount r.1).1 = None
  ∧ connectedToRef (unmount r.1).1 = None
  ∧ (unmount (unmount r.1).1).2 = [].
Proof.
  intros r open. subst r open. destruct h as [ic ce sr ra rt ct].
  unfold effect, unmount, connect. simpl.
  destruct ct as [[s u]|]; simpl.
  - destruct (String.eqb_spec s (o_sessionId opts)) as [->|Hs];
      [destruct (String.eqb_spec u (o_userId opts)) as [->|Hu]|]; simpl.
    + destruct sr as [[|]|]; simpl; rewrite ?String.eqb_refl; simpl;
        (split_and!; [by eexists | done | auto | | done..]);
        (split; [discriminate | intros [_ (t & [= <-] & Hne)]; done]).
    + destruct sr as [[|]|]; simpl; rewrite ?String.eqb_refl; simpl;
        (split_and!; [by eexists | done | auto | | done..]).
      * split; [intros _ | done].
        split; [by eexists|]. eexists. split; [done | congruence].
      * split; [intros _ | done].
        split; [by eexists|]. eexists. split; [done | congruence].
      * split; [discriminate | intros [[? [=]] _]].
    + destruct sr as [[|]|]; simpl; rewrite ?String.eqb_refl; simpl;
        (split_and!; [by eexists | done | auto | | done..]).
      * split; [intros _ | done].
        split; [by eexists|]. eexists. split; [done | congruence].
      * split; [intros _ | done].
        split; [by eexists|]. eexists. split; [done | congruence].
      * split; [discriminate | intros [[? [=]] _]].
  - destruct sr as [[|]|]; simpl; rewrite ?String.eqb_refl; simpl;
      (split_and!; [by eexists | done | auto | | done..]);
      (split; [discriminate | intros [_ (t & [=] & _)]]).
Qed.
End ConnectionEffect.

(** ** The frames that the hook sends, at the gateway *)
Section OwnFrames.
Import Js SessionsService Gateway Traces MoreTraces UseWebSocket
  UseWebSocketEffects Samples.





End OwnFrames.

(** ** The throttle on language changes over a trace *)
Section LanguageThrottle.
Import Js SessionsService Gateway Traces MoreTraces Samples.

Lemma spaced_none_in_window gap T last ts :
  (0 ≤ gap)%Z → (T + 1000 ≤ last + gap)%Z → spaced gap last ts →
  filter (in_window T) ts = [].
Proof.
  intros Hgap. revert last. induction ts as [|t ts IH]; intros last Hlast;
    cbn [spaced]; [done|].
  intros [Ht Hrest]. rewrite filter_cons.
  rewrite decide_False by (unfold in_window; lia).
  apply (IH t); [lia | done].
Qed.

Lemma spaced_5000_window_at_most_1 T last ts :
  spaced 5000 last ts → (length (filter (in_window T) ts) ≤ 1)%nat.
Proof.
  revert last. induction ts as [|t ts IH]; intros last; cbn [spaced].
  - intros _. rewrite filter_nil. simpl. lia.
  - intros [Hgap Hrest]. rewrite filter_cons.
    destruct (decide (in_window T t)) as [Hin|Hout]; [|by eapply IH].
    unfold in_window in Hin.
    rewrite (spaced_none_in_window 5000 T t ts); [simpl; lia | lia | lia | done].
Qed.

Lemma handleLanguageChange_throttle userId client message clock st :
  let r := handleLanguageChange client message clock st in
  throttled_step 5000 (is_language_change_of userId)
    (default 0%Z (languageChangeThrottle st !! userId))
    (default 0%Z (languageChangeThrottle r.1 !! userId))
    (LanguageChange client message clock) r.2.
Proof.
  unfold handleLanguageChange, throttled_step.
  destruct (truthy_str (userSessions st !! client)) as [sid|];
    [|simpl; left; split; [done | lia]].
  destruct (truthy_str (socketUsers st !! client)) as [uid|];
    [|simpl; left; split; [done | lia]].
  destruct (strict_neq_str sid (m_sessionId message));
    [simpl; left; split; [done | lia]|].
  destruct (Language_includes (m_payload message)) as [language|];
    [|simpl; left; split; [done | lia]].
  case_bool_decide as Hthr; [simpl; left; split; [done | lia]|].
  simpl sessions.
  destruct (updateSessionLanguage sid language (sessions st))
    as [sessions1 [|]]; simpl.
  - destruct (decide (uid = userId)) as [->|Hne].
    + rewrite lookup_insert_eq, String.eqb_refl. simpl.
      right. split; [done|]. exists clock. split_and!; [done | done | lia].
    + rewrite lookup_insert_ne by done.
      destruct (String.eqb_spec uid userId); [done|].
      left. split; [done | lia].
  - left. split; [done|].
    destruct (decide (uid = userId)) as [->|Hne].
    + rewrite lookup_insert_eq. simpl. lia.
    + rewrite lookup_insert_ne by done. lia.
Qed.

Lemma step_language_throttle userId st a :
  is_disconnect a = false →
  throttled_step 5000 (is_language_change_of userId)
    (default 0%Z (languageChangeThrottle st !! userId))
    (default 0%Z (languageChangeThrottle (step st a).1 !! userId))
    a (step st a).2.
Proof.
  destruct a; simpl; intros Hnd; try discriminate Hnd;
    try (left; split; [done | lia]).
  - unfold handleConnection.
    repeat case_match; simpl; left; (split; [done | lia]).
  - unfold handleCodeUpdate.
    handler_cases; left; (split; [done | lia]).
  - unfold handleCursorUpdate.
    handler_cases; left; (split; [done | lia]).
  - apply handleLanguageChange_throttle.
Qed.

(** Property X25.  As long as no connection closes, the language changes
    of one user that the gateway broadcasts have readings of the clock at
    the throttle at least 5 seconds apart, the first at least 5 seconds
    after the time the throttle held for the user at the start; so at most
    one of them has a reading within any one second. *)
Theorem language_changes_are_5_seconds_apart (st : State)
    (tr : list Action) (userId : string) :
  forallb (fun a => negb (is_disconnect a)) tr = true →
  spaced 5000 (default 0%Z (languageChangeThrottle st !! userId))
    (readings_of (is_language_change_of userId) st tr)
  ∧ ∀ T, (length (filter (in_window T)
                    (readings_of (is_language_change_of userId) st tr))
          ≤ 1)%nat.
Proof.
  intros Hnd.
  assert (Hsp : spaced 5000
                  (default 0%Z (languageChangeThrottle st !! userId))
                  (readings_of (is_language_change_of userId) st tr)).
  { apply (readings_of_spaced 5000 _ languageChangeThrottle).
    intros st' a Hin. apply step_language_throttle.
    rewrite forallb_forall in Hnd. apply negb_true_iff, Hnd.
    by apply list_elem_of_In. }
  split; [done|]. intros T. by eapply spaced_5000_window_at_most_1.
Qed.

Lemma language_changes_are_5_seconds_apart_witness :
  readings_of (is_language_change_of "alice") two_users
    [ LanguageChange "sockA" (language_change sid1 "python") (tick 100000);
      LanguageChange "sockA" (language_change sid1 "typescript")
        (tick 104999);
      LanguageChange "sockA" (language_change sid1 "typescript")
        (tick 105000) ]
  = [100000%Z; 105000%Z]
  ∧ spaced 5000 0 [100000%Z; 105000%Z].
Proof.
  assert (H : readings_of (is_language_change_of "alice") two_users
    [ LanguageChange "sockA" (language_change sid1 "python") (tick 100000);
      LanguageChange "sockA" (language_change sid1 "typescript")
        (tick 104999);
      LanguageChange "sockA" (language_change sid1 "typescript")
        (tick 105000) ]
    = [100000%Z; 105000%Z]) by (by vm_compute).
  split; [exact H|]. rewrite <- H.
  apply (language_changes_are_5_seconds_apart two_users
           [ LanguageChange "sockA" (language_change sid1 "python")
               (tick 100000);
             LanguageChange "sockA" (language_change sid1 "typescript")
               (tick 104999);
             LanguageChange "sockA" (language_change sid1 "typescript")
               (tick 105000) ]
           "alice" eq_refl).
Defined.
End LanguageThrottle.
